(** * PartyBot: the submission workflow of [app.py]

    A shallow embedding of the module-level store of [app.py] and of the
    five handlers that read and write it, and of the logger of [log.py],
    with the properties of the workflow and of the logger proved over
    that embedding.

    Modelling conventions.
    - A Python [str] is the list of its code points ([list N]); [len] is
      [length].
    - [str.isalpha], [str.lower] and [urllib.parse.urlparse(..).scheme]
      are tables of the Python runtime; the handlers are parametric in
      them (class [PyLib]).
    - [Submission] objects are shared between [submissions_by_token] and
      [done_submissions_by_user]; the store keeps them in a heap indexed by
      object identity and both dictionaries hold references.
    - [submissions_by_token], [current_token_by_user_id] and
      [known_candidates] are only read by key or tested for a value, so
      they are finite maps; [submitted_candidates] is a finite set;
      [done_submissions_by_user] is iterated by [partybot_report] and
      [save], so it is an insertion-ordered dictionary.
    - A handler runs to completion on one event; the calls to the
      messaging service and the file download return normally and are
      recorded as effects. What the outside world gives back to a handler
      ([uuid.uuid4()], the [ts] of a posted message, the path of a
      retrieved file) is carried by the event, and so are the fields of
      the payload the handler reads.
    - A handler ends by returning or by raising; the exceptions modelled
      are the ones the code itself can raise on its inputs:
      [AttributeError], [TypeError] and [KeyError] in [cancel_submission],
      [ValueError] from [urlparse], [OSError] from [open].
    - A configuration file that parses holds a list of strings.
    - The logger ([Module Log]) is called with the five levels of its
      module and with strings; the value of [logging_level] and the
      frame of the caller (file name, line number) are arguments of
      [log], and a call of [print] is its result. *)

From Stdlib Require Import String Ascii.
From stdpp Require Import gmap list fin_maps.

Local Open Scope nat_scope.
#[local] Set Warnings "-clear-no-such-hyp".

(** ** Strings *)

Abbreviation str := (list N).

(** Code points of the separators the handlers use. *)
Definition SPACE : N := 32.
Definition LT : N := 60.
Definition GT : N := 62.
Definition PIPE : N := 124.
Definition COLON : N := 58.

(** [s.split(sep)] for a one-character separator: never empty, keeps
    empty fields. *)
Fixpoint split (sep : N) (s : str) : list str :=
  match s with
  | [] => [[]]
  | c :: s' =>
      if N.eqb c sep then [] :: split sep s'
      else match split sep s' with
           | h :: t => (c :: h) :: t
           | [] => [[c]]
           end
  end.

(** [sep.join(parts)] for a one-character separator. *)
Fixpoint join (sep : N) (parts : list str) : str :=
  match parts with
  | [] => []
  | [p] => p
  | p :: rest => p ++ sep :: join sep rest
  end.

(** [s.replace(c, "")] for a one-character [c]. *)
Definition remove_char (c : N) (s : str) : str :=
  List.filter (λ x, negb (N.eqb x c)) s.

(** [c in s] for a one-character [c]. *)
Definition contains (c : N) (s : str) : bool :=
  existsb (N.eqb c) s.

(** Truth value of an [Optional[str]]: [None] and [""] are false. *)
Definition truthy (o : option str) : bool :=
  match o with
  | Some (_ :: _) => true
  | _ => false
  end.

(** The tables of the Python runtime the module depends on. *)
Class PyLib := {
  isalpha : N → bool;            (* [c.isalpha()] *)
  lower : str → str;             (* [s.lower()] *)
  urlparse_scheme : str → option str;
    (* [urlparse(u).scheme]; [None] when [urlparse] raises [ValueError] *)
}.

(** ** Insertion-ordered dictionaries *)

Abbreviation odict K V := (list (K * V)).

Section odict.
Context {K V : Type} `{EqDecision K}.

(** [d.get(k)] *)
Fixpoint od_get (k : K) (d : odict K V) : option V :=
  match d with
  | [] => None
  | (k', v) :: d' => if decide (k = k') then Some v else od_get k d'
  end.

(** [d[k] = v]: an existing key keeps its place, a new one goes last. *)
Fixpoint od_set (k : K) (v : V) (d : odict K V) : odict K V :=
  match d with
  | [] => [(k, v)]
  | (k', v') :: d' =>
      if decide (k = k') then (k', v) :: d' else (k', v') :: od_set k v d'
  end.

(** [d[k]] on a [defaultdict] whose factory returns [dflt]: a missing
    key is inserted with the default before it is returned. *)
Definition od_getitem_default (dflt : V) (k : K) (d : odict K V) : V * odict K V :=
  match od_get k d with
  | Some v => (v, d)
  | None => (dflt, od_set k dflt d)
  end.

(** [d.values()] *)
Definition od_values (d : odict K V) : list V := d.*2.
End odict.

(** ** Data model *)

Record Submission := mkSubmission {
  referer : option str;
  candidate : option str;
  url : option str;
  position : option str;
  ts : option str;
  extra_info : option str;
  cv_filename : option str;
  done : bool;
}.

(** [Submission()] *)
Definition Submission_init : Submission :=
  mkSubmission None None None None None None None false.

Definition set_referer (v : option str) (x : Submission) : Submission :=
  mkSubmission v (candidate x) (url x) (position x) (ts x) (extra_info x) (cv_filename x) (done x).
Definition set_candidate (v : option str) (x : Submission) : Submission :=
  mkSubmission (referer x) v (url x) (position x) (ts x) (extra_info x) (cv_filename x) (done x).
Definition set_url (v : option str) (x : Submission) : Submission :=
  mkSubmission (referer x) (candidate x) v (position x) (ts x) (extra_info x) (cv_filename x) (done x).
Definition set_position (v : option str) (x : Submission) : Submission :=
  mkSubmission (referer x) (candidate x) (url x) v (ts x) (extra_info x) (cv_filename x) (done x).
Definition set_ts (v : option str) (x : Submission) : Submission :=
  mkSubmission (referer x) (candidate x) (url x) (position x) v (extra_info x) (cv_filename x) (done x).
Definition set_extra_info (v : option str) (x : Submission) : Submission :=
  mkSubmission (referer x) (candidate x) (url x) (position x) (ts x) v (cv_filename x) (done x).
Definition set_cv_filename (v : option str) (x : Submission) : Submission :=
  mkSubmission (referer x) (candidate x) (url x) (position x) (ts x) (extra_info x) v (done x).
Definition set_done (v : bool) (x : Submission) : Submission :=
  mkSubmission (referer x) (candidate x) (url x) (position x) (ts x) (extra_info x) (cv_filename x) v.

Definition MAX_COMMAND_LENGTH : nat := 2 ^ 8.
Definition CANDIDATE_LIMIT : nat := 9.

(** Identity of a [Submission] object: its index in the heap. *)
Abbreviation ref := nat.

(** [done_submissions_by_user]: submitter, then position, then candidate.
    The keys are the fields of the submission, which are [Optional[str]]. *)
Abbreviation by_name_t := (odict (option str) ref).
Abbreviation by_position_t := (odict (option str) by_name_t).
Abbreviation by_user_t := (odict (option str) by_position_t).

(** The module-level store the handlers mutate. *)
Record Store := mkStore {
  heap : list Submission;
  submitted_candidates : gset str;
  done_submissions_by_user : by_user_t;
  submissions_by_token : gmap str ref;
  current_token_by_user_id : gmap str str;
}.

Definition empty_store : Store := mkStore [] ∅ [] ∅ ∅.

(** The registries loaded at start-up and only read afterwards. *)
Record Config := mkConfig {
  known_candidates : gmap str str;
  open_positions : list str;
}.

(** ** Effects and results *)

(** The texts the bot sends, by the place that builds them. *)
Inductive Msg :=
| MsgTooLong
| MsgBadUrl (candidate_url : str)
| MsgEmptyName
| MsgKnown (candidate_name : str)
| MsgDuplicate (candidate_name : str)
| MsgPicker (candidate_name : str) (token : str) (positions : list str)
| MsgDone (cand : option str)
| MsgLimit (pos : str)
| MsgOops
| MsgGotIt (pos : str) (cand : option str)
| MsgCanceled (cand : option str)
| MsgInfoSaved (cand : option str) (cv : option (option str)) (info : option str)
| MsgReport (groups : list (option str * list (option str))).

Inductive LogEntry :=
| LogMalformedUrl (candidate_url user_name : str)
| LogInitiated (x : Submission)
| LogNoOpenSubmission (user_name : str)
| LogPositionSelected (x : Submission)
| LogCanceled (x : Submission)
| LogUnrelated (user_id : str) (text : str)
| LogYamlError.

Inductive Effect :=
| Ack
| Respond (m : Msg)
| PostMessage (channel : str) (m : Msg)
| ChatDelete (channel : str) (ts_ : option str)
| UrlRetrieve (file_url : str)
| WriteLeads (rows : list Submission)
| LogInfo (e : LogEntry)
| LogWarn (e : LogEntry)
| LogError (e : LogEntry).

Inductive PyError := AttributeError | TypeError | KeyError | ValueError | OSError.

(** What a handler leaves behind: the store, the effects in order, and
    the exception that ended it, if any. *)
Record Result := mkResult {
  res_store : Store;
  res_effects : list Effect;
  res_raised : option PyError;
}.

(** ** Events *)

(** [/partybot-submit]: the command, the value of [uuid.uuid4()] and the
    [ts] of the picker message the messaging service answers with. *)
Record SubmitCommand := mkSubmitCommand {
  cmd_text : str;
  cmd_user_name : str;
  cmd_user_id : str;
  cmd_uuid : str;
  cmd_posted_ts : str;
}.

(** [/partybot-report] *)
Record ReportCommand := mkReportCommand {
  rep_user_name : str;
  rep_user_id : str;
}.

(** The [pick_position] interaction: [value] and [text] of the selected
    option, the user and the [ts] of the message that holds the picker. *)
Record PickBody := mkPickBody {
  pick_value : str;
  pick_user_id : str;
  pick_username : str;
  pick_text : str;
  pick_message_ts : str;
}.

(** The [cancel] interaction. *)
Record CancelBody := mkCancelBody {
  cancel_value : str;
  cancel_user_id : str;
}.

(** The first file of a [file_share] message and the path
    [urlretrieve] stored it under. *)
Record FileShare := mkFileShare {
  url_private_download : str;
  file_name : str;
  retrieved : str;
}.

(** A [message] event. *)
Record MessageBody := mkMessageBody {
  msg_user : option str;
  msg_text : str;
  msg_file : option FileShare;
}.

Inductive Event :=
| ESubmit (command : SubmitCommand)
| EReport (command : ReportCommand)
| EPick (body : PickBody)
| ECancel (body : CancelBody)
| EMessage (body : MessageBody).

(** ** Store updates *)

Definition with_heap (h : list Submission) (s : Store) : Store :=
  mkStore h (submitted_candidates s) (done_submissions_by_user s)
          (submissions_by_token s) (current_token_by_user_id s).
Definition with_submitted (c : gset str) (s : Store) : Store :=
  mkStore (heap s) c (done_submissions_by_user s)
          (submissions_by_token s) (current_token_by_user_id s).
Definition with_done (d : by_user_t) (s : Store) : Store :=
  mkStore (heap s) (submitted_candidates s) d
          (submissions_by_token s) (current_token_by_user_id s).

(** [submissions_by_token.get(token)], with the object behind the
    reference. A stored reference always points into the heap. *)
Definition get_submission (s : Store) (token : option str) : option (ref * Submission) :=
  tok ← token;
  r ← submissions_by_token s !! tok;
  x ← heap s !! r;
  Some (r, x).

(** [d[a][b]] on the nested [defaultdict]: both levels are created when
    missing. *)
Definition getitem2 (a b : option str) (d : by_user_t) : by_name_t * by_user_t :=
  let '(by_position, d) := od_getitem_default [] a d in
  let '(by_name, by_position) := od_getitem_default [] b by_position in
  (by_name, od_set a by_position d).

(** [d[a][b][c] = v] on the nested [defaultdict]. *)
Definition setitem3 (a b c : option str) (v : ref) (d : by_user_t) : by_user_t :=
  let '(by_position, d) := od_getitem_default [] a d in
  let '(by_name, by_position) := od_getitem_default [] b by_position in
  od_set a (od_set b (od_set c v by_name) by_position) d.

(** The rows [save] dumps: every completed submission, as it is now. *)
Definition leads (s : Store) : list Submission :=
  submissions_by_positions ← od_values (done_submissions_by_user s);
  submissions_by_name ← od_values submissions_by_positions;
  r ← od_values submissions_by_name;
  option_list (heap s !! r).

Definition save (s : Store) : list Effect := [WriteLeads (leads s)].

(** ** Handlers *)

Section handlers.
Context `{PyLib}.
Variable cfg : Config.

Definition canonicalize_name (name : str) : str :=
  lower (List.filter isalpha name).

(** [finish_submission(user_id, submission, client)]; [r] is the
    identity of [submission] and [x] its fields on entry. *)
Definition finish_submission (user_id : str) (r : ref) (x : Submission)
    (s : Store) : Store * list Effect :=
  let x := set_done true x in
  let s := with_heap (<[r := x]> (heap s)) s in
  let s := with_done (setitem3 (referer x) (position x) (candidate x) r
                               (done_submissions_by_user s)) s in
  (s, [PostMessage user_id (MsgDone (candidate x)); ChatDelete user_id (ts x)]
        ++ save s).

Definition partybot_report (command : ReportCommand) (s : Store) : Result :=
  let user_name := rep_user_name command in
  let user_id := rep_user_id command in
  let '(by_position, d) :=
    od_getitem_default [] (Some user_name) (done_submissions_by_user s) in
  let s := with_done d s in
  let submissions :=
    (λ '(position, submissions_by_name),
       (position,
        omap (λ r, candidate <$> heap s !! r) (od_values submissions_by_name)))
      <$> by_position in
  mkResult s [Ack; PostMessage user_id (MsgReport submissions)] None.

Definition partybot_submit (command : SubmitCommand) (s : Store) : Result :=
  if decide (MAX_COMMAND_LENGTH < length (cmd_text command)) then
    mkResult s [Ack; Respond MsgTooLong] None
  else
    let user_name := cmd_user_name command in
    let user_id := cmd_user_id command in
    let split_command := split SPACE (cmd_text command) in
    let candidate_url := hd [] split_command in
    let candidate_name := join SPACE (tl split_command) in
    let candidate_url := remove_char GT (remove_char LT candidate_url) in
    let candidate_url :=
      if contains PIPE candidate_url then hd [] (split PIPE candidate_url)
      else candidate_url in
    match urlparse_scheme candidate_url with
    | None => mkResult s [Ack] (Some ValueError)
    | Some scheme =>
    let warned :=
      if truthy (Some scheme) then []
      else [LogWarn (LogMalformedUrl candidate_url user_name);
            Respond (MsgBadUrl candidate_url)] in
    if negb (truthy (Some candidate_name)) then
      mkResult s (Ack :: warned ++ [Respond MsgEmptyName]) None
    else
      let canonical_name := canonicalize_name candidate_name in
      if decide (map_Exists (λ _ v, v = canonical_name) (known_candidates cfg)) then
        mkResult s (Ack :: warned ++ [Respond (MsgKnown candidate_name)]) None
      else if decide (canonical_name ∈ submitted_candidates s) then
        mkResult s (Ack :: warned ++ [Respond (MsgDuplicate candidate_name)]) None
      else
        let token := cmd_uuid command in
        let submission :=
          set_url (Some candidate_url)
            (set_candidate (Some candidate_name)
               (set_referer (Some user_name) Submission_init)) in
        let r := length (heap s) in
        mkResult
          (mkStore (heap s ++ [set_ts (Some (cmd_posted_ts command)) submission])
                   ({[canonical_name]} ∪ submitted_candidates s)
                   (done_submissions_by_user s)
                   (<[token := r]> (submissions_by_token s))
                   (<[user_id := token]> (current_token_by_user_id s)))
          (Ack :: warned ++
             [LogInfo (LogInitiated submission);
              PostMessage user_id
                (MsgPicker candidate_name token (open_positions cfg))])
          None
    end.

Definition pick_position (body : PickBody) (s : Store) : Result :=
  let token := hd [] (split COLON (pick_value body)) in
  let user_id := pick_user_id body in
  let user_name := pick_username body in
  let position := pick_text body in
  let '(by_name, d) :=
    getitem2 (Some user_name) (Some position) (done_submissions_by_user s) in
  let s := with_done d s in
  if decide (CANDIDATE_LIMIT ≤ length by_name) then
    mkResult s [Ack; PostMessage user_id (MsgLimit position)] None
  else
    match get_submission s (Some token) with
    | None =>
        mkResult s [Ack; LogError (LogNoOpenSubmission user_name);
                    PostMessage user_id MsgOops] None
    | Some (r, submission) =>
        let candidate_name := candidate submission in
        let submission := set_position (Some position) submission in
        let logged := LogInfo (LogPositionSelected submission) in
        let submission := set_ts (Some (pick_message_ts body)) submission in
        let '(s, finished) := finish_submission user_id r submission s in
        mkResult s
          ([Ack; PostMessage user_id (MsgGotIt position candidate_name); logged]
             ++ finished)
          None
    end.

Definition cancel_submission (body : CancelBody) (s : Store) : Result :=
  let token := hd [] (split COLON (cancel_value body)) in
  let user_id := cancel_user_id body in
  match get_submission s (Some token) with
  | None => mkResult s [Ack] (Some AttributeError)
  | Some (_, submission) =>
      match candidate submission with
      | None => mkResult s [Ack] (Some TypeError)
      | Some name =>
          let canonical_name := canonicalize_name name in
          if decide (canonical_name ∈ submitted_candidates s) then
            mkResult
              (with_submitted (submitted_candidates s ∖ {[canonical_name]}) s)
              [Ack; PostMessage user_id (MsgCanceled (candidate submission));
               ChatDelete user_id (ts submission);
               LogInfo (LogCanceled submission)]
              None
          else mkResult s [Ack] (Some KeyError)
      end
  end.

Definition extra_info_message (body : MessageBody) (s : Store) : Result :=
  match msg_user body with
  | None | Some [] => mkResult s [] None
  | Some user_id =>
      let token := current_token_by_user_id s !! user_id in
      match get_submission s token with
      | None => mkResult s [LogInfo (LogUnrelated user_id (msg_text body))] None
      | Some (r, submission) =>
          if done submission then mkResult s [] None
          else
            let name := file_name <$> msg_file body in
            let '(submission, fetched) :=
              match msg_file body with
              | Some f => (set_cv_filename (Some (retrieved f)) submission,
                           [UrlRetrieve (url_private_download f)])
              | None => (submission, [])
              end in
            let extra_info := msg_text body in
            let submission := set_extra_info (Some extra_info) submission in
            let text :=
              MsgInfoSaved (candidate submission)
                (if truthy (cv_filename submission) then Some name else None)
                (if truthy (Some extra_info) then Some extra_info else None) in
            let s := with_heap (<[r := submission]> (heap s)) s in
            let said := fetched ++ [PostMessage user_id text] in
            if truthy (position submission) then
              let '(s, finished) := finish_submission user_id r submission s in
              mkResult s (said ++ finished) None
            else mkResult s said None
      end
  end.

(** One event, dispatched to its handler. *)
Definition handle (e : Event) (s : Store) : Result :=
  match e with
  | ESubmit command => partybot_submit command s
  | EReport command => partybot_report command s
  | EPick body => pick_position body s
  | ECancel body => cancel_submission body s
  | EMessage body => extra_info_message body s
  end.

(** The store after a sequence of events; an exception ends its own
    handler only. *)
Definition run (events : list Event) (s : Store) : Store :=
  foldl (λ s e, res_store (handle e s)) s events.

Definition reachable (s : Store) : Prop :=
  ∃ events, s = run events empty_store.
End handlers.

(** ** Start-up *)

(** What reading one configuration file gives: [open] fails, or the
    parser raises [yaml.YAMLError], or it returns the document, a list of
    strings. *)
Inductive Load :=
| OpenFails
| YamlFails
| Loaded (doc : list str).

Record Startup := mkStartup {
  st_config : Config;
  st_effects : list Effect;
  st_raised : option PyError;
}.

Section startup.
Context `{PyLib}.

(** The two [with open(..)] blocks at module level. [open] is outside
    the [try]; the registries keep their initial empty values when the
    parser raises. *)
Definition startup (known positions : Load) : Startup :=
  match known with
  | OpenFails => mkStartup (mkConfig ∅ []) [] (Some OSError)
  | YamlFails | Loaded _ =>
      let '(known_candidates, warned) :=
        match known with
        | Loaded doc =>
            (foldl (λ m candidate, <[candidate := canonicalize_name candidate]> m)
                   ∅ doc, [])
        | _ => (∅, [LogWarn LogYamlError])
        end in
      match positions with
      | OpenFails => mkStartup (mkConfig known_candidates []) warned (Some OSError)
      | YamlFails =>
          mkStartup (mkConfig known_candidates [])
                    (warned ++ [LogWarn LogYamlError]) None
      | Loaded doc => mkStartup (mkConfig known_candidates doc) warned None
      end
  end.
End startup.

(** ** A concrete runtime for the examples

    On the ASCII inputs used below these agree with CPython. *)

Module Ascii.
Definition is_upper (c : N) : bool := ((65 <=? c) && (c <=? 90))%N.
Definition is_lower (c : N) : bool := ((97 <=? c) && (c <=? 122))%N.

Definition ascii_isalpha (c : N) : bool := is_upper c || is_lower c.
Definition ascii_lower (s : str) : str :=
  (λ c, if is_upper c then (c + 32)%N else c) <$> s.
Definition ascii_scheme (u : str) : option str :=
  Some (if contains COLON u then hd [] (split COLON u) else []).

Definition lib : PyLib := Build_PyLib ascii_isalpha ascii_lower ascii_scheme.

(** A string literal as a Python [str]. *)
Definition py (s : string) : str :=
  N_of_ascii <$> list_ascii_of_string s.
End Ascii.

(** ** Vocabulary of the statements *)

(** The token an interaction carries: the part of its [value] before
    the first colon. *)
Definition token_of (value : str) : str := hd [] (split COLON value).

(** The candidate name [partybot_submit] reads from a command: what
    follows the first space of its text. *)
Definition candidate_name_of (command : SubmitCommand) : str :=
  join SPACE (tl (split SPACE (cmd_text command))).

(** The URL [partybot_submit] reads from a command: the text before the
    first space, without angle brackets and without a link label. *)
Definition candidate_url_of (command : SubmitCommand) : str :=
  let u := remove_char GT (remove_char LT (hd [] (split SPACE (cmd_text command)))) in
  if contains PIPE u then hd [] (split PIPE u) else u.

(** What [partybot_submit] says about a URL without a scheme. *)
Definition url_warning `{PyLib} (command : SubmitCommand) : list Effect :=
  match urlparse_scheme (candidate_url_of command) with
  | Some (_ :: _) => []
  | _ => [LogWarn (LogMalformedUrl (candidate_url_of command) (cmd_user_name command));
          Respond (MsgBadUrl (candidate_url_of command))]
  end.

(** [urlparse] returns on the URL of the command. *)
Definition url_parses `{PyLib} (command : SubmitCommand) : Prop :=
  is_Some (urlparse_scheme (candidate_url_of command)).

(** The canonical name is the canonical form of a known candidate. *)
Definition in_pool (cfg : Config) (c : str) : Prop :=
  map_Exists (λ _ v, v = c) (known_candidates cfg).

(** Nested reads of [done_submissions_by_user] that create nothing. *)
Definition lookup2 (a b : option str) (d : by_user_t) : option by_name_t :=
  od_get a d ≫= od_get b.
Definition lookup3 (a b c : option str) (d : by_user_t) : option ref :=
  lookup2 a b d ≫= od_get c.

(** Number of completed submissions of a submitter for a position. *)
Definition completed_count (s : Store) (user_name position : str) : nat :=
  length (default [] (lookup2 (Some user_name) (Some position)
                              (done_submissions_by_user s))).

(** The object [r] is held by the completed-submissions structure. *)
Definition completed (s : Store) (r : ref) : Prop :=
  ∃ a b c, lookup3 a b c (done_submissions_by_user s) = Some r.

Definition is_picker (e : Effect) : bool :=
  match e with
  | PostMessage _ (MsgPicker _ _ _) => true
  | _ => false
  end.

(** A nomination is accepted when the position picker is presented. *)
Definition accepted (r : Result) : Prop :=
  existsb is_picker (res_effects r) = true.

Definition is_reply (e : Effect) : bool :=
  match e with
  | Respond _ | PostMessage _ _ => true
  | _ => false
  end.

Definition is_write (e : Effect) : bool :=
  match e with
  | WriteLeads _ => true
  | _ => false
  end.

(** The texts that report a user-input error of a nomination. *)
Definition user_error (m : Msg) : Prop :=
  match m with
  | MsgTooLong | MsgEmptyName | MsgKnown _ | MsgDuplicate _ => True
  | _ => False
  end.

(** The handler sent nothing to the user. *)
Definition silent (r : Result) : Prop :=
  existsb is_reply (res_effects r) = false.

(** The handler rewrote the leads file. *)
Definition wrote (r : Result) : Prop :=
  existsb is_write (res_effects r) = true.

(** The object a message event writes back: the file reference, then
    the text. *)
Definition with_info (body : MessageBody) (x : Submission) : Submission :=
  set_extra_info (Some (msg_text body))
    (match msg_file body with
     | Some f => set_cv_filename (Some (retrieved f)) x
     | None => x
     end).

(** [if submission.position]: a position, a non-empty string, has been
    assigned. *)
Definition position_assigned (x : Submission) : Prop :=
  truthy (position x) = true.

(** The acknowledgement of a message event for the submission [x]. *)
Definition info_saved (body : MessageBody) (x : Submission) : Msg :=
  MsgInfoSaved (candidate x)
    (if truthy (cv_filename (with_info body x))
     then Some (file_name <$> msg_file body) else None)
    (if truthy (Some (msg_text body)) then Some (msg_text body) else None).

(** The structure [partybot_report] dumps: per position, the candidate
    names of the submissions completed for it. *)
Definition report_groups (s : Store) (by_position : by_position_t)
    : list (option str * list (option str)) :=
  (λ '(position, submissions_by_name),
     (position,
      omap (λ r, candidate <$> heap s !! r) (od_values submissions_by_name)))
    <$> by_position.

(** The references the completed structure holds, in order. *)
Definition held (s : Store) : list ref :=
  by_position ← od_values (done_submissions_by_user s);
  by_name ← od_values by_position;
  od_values by_name.

(** What one event can do to the objects. Every handler changes the heap
    and the completed structure by at most two of four elementary steps:
    leave both as they are (up to empty dictionaries created by a read),
    allocate a submission, write fields of a pending submission, complete
    a submission. *)

Section steps.
Context `{PyLib}.
Variable cfg : Config.

(** A submission as [partybot_submit] creates it: named, and not a
    known candidate. *)
Definition well_named (x : Submission) : Prop :=
  ∃ name, candidate x = Some name ∧ name ≠ [] ∧
          ¬ in_pool cfg (canonicalize_name name).

Definition same_completed (s s' : Store) : Prop :=
  ∀ a b c, lookup3 a b c (done_submissions_by_user s')
           = lookup3 a b c (done_submissions_by_user s).

Inductive micro : Store → Store → Prop :=
| micro_read s s' :
    heap s' = heap s → same_completed s s' → micro s s'
| micro_alloc s s' x :
    heap s' = heap s ++ [x] → done x = false → well_named x →
    same_completed s s' → micro s s'
| micro_write s s' r x0 x :
    heap s !! r = Some x0 → heap s' = <[r := x]> (heap s) →
    candidate x = candidate x0 → done x0 = false → done x = false →
    same_completed s s' → micro s s'
| micro_finish s s' r x0 x :
    heap s !! r = Some x0 → heap s' = <[r := x]> (heap s) →
    candidate x = candidate x0 → done x = true →
    (∀ a b c, lookup3 a b c (done_submissions_by_user s') =
              if decide (a = referer x ∧ b = position x ∧ c = candidate x)
              then Some r
              else lookup3 a b c (done_submissions_by_user s)) →
    micro s s'.

(** Every submission of the heap is named and not a known candidate. *)
Definition heap_named (s : Store) : Prop := Forall well_named (heap s).

(** What the completed structure holds is done. *)
Definition completed_are_done (s : Store) : Prop :=
  ∀ r, completed s r → ∃ x, heap s !! r = Some x ∧ done x = true.

(** A done submission has an entry under its own three keys. *)
Definition done_are_indexed (s : Store) : Prop :=
  ∀ r x, heap s !! r = Some x → done x = true →
    is_Some (lookup3 (referer x) (position x) (candidate x)
                     (done_submissions_by_user s)).

(** The event is a cancel addressed to a submission whose name has the
    canonical form [c]. *)
Definition cancels (c : str) (e : Event) (s : Store) : Prop :=
  match e with
  | ECancel body =>
      ∃ r x name,
        get_submission s (Some (token_of (cancel_value body))) = Some (r, x) ∧
        candidate x = Some name ∧ canonicalize_name name = c
  | _ => False
  end.

(** No event of the sequence, handled in turn from [s], is such a
    cancel. *)
Fixpoint never_cancels (c : str) (events : list Event) (s : Store) : Prop :=
  match events with
  | [] => True
  | e :: events =>
      ¬ cancels c e s ∧ never_cancels c events (res_store (handle cfg e s))
  end.
End steps.

(** ** Concrete inputs *)

Module Examples.
Import Ascii.
#[local] Existing Instance lib.

Definition alice : str := py "alice".
Definition U1 : str := py "U1".
Definition Engineer : str := py "Engineer".
Definition Designer : str := py "Designer".
Definition Jane : str := py "Jane Doe".

Definition cfg0 : Config := mkConfig ∅ [Engineer; Designer].

(** A configuration where Zed is a known candidate. *)
Definition cfg1 : Config :=
  st_config (startup (Loaded [py "Zed"]) (Loaded [Engineer; Designer])).

(** [/partybot-submit https://linkedin.com/x <name>] by alice, with the
    token the run draws for it. *)
Definition nominate (token name : string) : SubmitCommand :=
  mkSubmitCommand (py (String.append "https://linkedin.com/x " name))
                  alice U1 (py token) (py "100.1").

Definition pick (token position : string) : PickBody :=
  mkPickBody (py (String.append token (String.append ":" position)))
             U1 alice (py position) (py "100.1").

Definition cancel (token : string) : CancelBody :=
  mkCancelBody (py (String.append token ":cancel")) U1.

Definition say (text : string) : MessageBody :=
  mkMessageBody (Some U1) (py text) None.

Definition report : ReportCommand := mkReportCommand alice U1.

(** A command of 257 characters. *)
Definition too_long : SubmitCommand :=
  mkSubmitCommand (replicate 257 120%N) alice U1 (py "t0") (py "100.1").

(** A command without a candidate name. *)
Definition nameless : SubmitCommand :=
  mkSubmitCommand (py "https://linkedin.com/x") alice U1 (py "t0") (py "100.1").

(** Nine nominations by alice, each completed for Engineer. *)
Definition nine : list Event :=
  [ESubmit (nominate "a" "A"); EPick (pick "a" "Engineer");
   ESubmit (nominate "b" "B"); EPick (pick "b" "Engineer");
   ESubmit (nominate "c" "C"); EPick (pick "c" "Engineer");
   ESubmit (nominate "d" "D"); EPick (pick "d" "Engineer");
   ESubmit (nominate "e" "E"); EPick (pick "e" "Engineer");
   ESubmit (nominate "f" "F"); EPick (pick "f" "Engineer");
   ESubmit (nominate "g" "G"); EPick (pick "g" "Engineer");
   ESubmit (nominate "h" "H"); EPick (pick "h" "Engineer");
   ESubmit (nominate "i" "I"); EPick (pick "i" "Engineer")].

Definition quota_store : Store := run cfg0 nine empty_store.

(** Jane Doe nominated under token [t1], nothing else. *)
Definition pending_store : Store :=
  run cfg0 [ESubmit (nominate "t1" "Jane Doe")] empty_store.

Definition jane_pending : Submission :=
  mkSubmission (Some alice) (Some Jane) (Some (py "https://linkedin.com/x"))
               None (Some (py "100.1")) None None false.

(** Jane Doe nominated and completed for Engineer. *)
Definition completed_store : Store :=
  run cfg0 [ESubmit (nominate "t1" "Jane Doe"); EPick (pick "t1" "Engineer")]
      empty_store.

(** Jane Doe nominated and cancelled under [t0]. *)
Definition cancelled_store : Store :=
  run cfg0 [ESubmit (nominate "t0" "Jane Doe"); ECancel (cancel "t0")]
      empty_store.

(** Jane Doe nominated and cancelled under [t0], nominated again under
    [t1]; then the cancel button of [t0] pressed once more. *)
Definition stale_store : Store :=
  run cfg0 [ESubmit (nominate "t0" "Jane Doe"); ECancel (cancel "t0");
            ESubmit (nominate "t1" "Jane Doe"); ECancel (cancel "t0")]
      empty_store.

(** A nomination of Jane Doe in a command of 280 characters. *)
Definition long_renomination : SubmitCommand :=
  mkSubmitCommand
    (py "https://linkedin.com/" ++ replicate 250 120%N ++ py " Jane Doe")
    alice U1 (py "t2") (py "100.2").

(** Jane Doe nominated, cancelled, nominated again; the second
    nomination completed for Engineer, then the first. *)
Definition overwritten_store : Store :=
  run cfg0 [ESubmit (nominate "t1" "Jane Doe"); ECancel (cancel "t1");
            ESubmit (nominate "t2" "Jane Doe");
            EPick (pick "t2" "Engineer"); EPick (pick "t1" "Engineer")]
      empty_store.
End Examples.

(** ** Vocabulary of the further properties *)

(** The [value] of an interactive element: [f"{token}:{position}"] for a
    radio option of the picker, [f"{token}:cancel"] for the cancel
    button. *)
Definition option_value (token label : str) : str := token ++ COLON :: label.

(** The radio options of the picker: the text and the value of each. *)
Definition picker_options (token : str) (positions : list str)
    : list (str * str) :=
  (λ position, (position, option_value token position)) <$> positions.

(** The entries of the completed structure, in the order of iteration:
    submitter, position, candidate name and the submission held. *)
Definition entries (d : by_user_t)
    : list (option str * option str * option str * ref) :=
  '(a, by_position) ← d;
  '(b, by_name) ← by_position;
  '(c, r) ← by_name;
  [(a, b, c, r)].

(** The elementary changes the handlers make to the store, with the
    equations of the code; the flag tells a completion (which writes the
    leads file) from the rest. *)
Inductive change : bool → Store → Store → Prop :=
| change_touch1 s a :
    change false s
      (with_done (od_getitem_default [] a (done_submissions_by_user s)).2 s)
| change_touch2 s a b :
    change false s (with_done (getitem2 a b (done_submissions_by_user s)).2 s)
| change_submitted s c :
    change false s (with_submitted c s)
| change_alloc s x c token user_id :
    done x = false → position x = None → is_Some (referer x) →
    change false s
      (mkStore (heap s ++ [x]) ({[c]} ∪ submitted_candidates s)
               (done_submissions_by_user s)
               (<[token := length (heap s)]> (submissions_by_token s))
               (<[user_id := token]> (current_token_by_user_id s)))
| change_write s r x x' :
    heap s !! r = Some x → done x = false → done x' = false →
    referer x' = referer x → candidate x' = candidate x → url x' = url x →
    position x' = position x →
    change false s (with_heap (<[r := x']> (heap s)) s)
| change_finish s user_id r x x' :
    heap s !! r = Some x →
    referer x' = referer x → candidate x' = candidate x → url x' = url x →
    change true s (finish_submission user_id r x' s).1.

(** The rows of the last write of the leads file among the effects. *)
Fixpoint last_written (effects : list Effect) : option (list Submission) :=
  match effects with
  | [] => None
  | e :: effects =>
      match last_written effects with
      | Some rows => Some rows
      | None => match e with WriteLeads rows => Some rows | _ => None end
      end
  end.

(** The effects of a sequence of events, in order. *)
Fixpoint run_effects `{PyLib} (cfg : Config) (events : list Event) (s : Store)
    : list Effect :=
  match events with
  | [] => []
  | e :: events =>
      res_effects (handle cfg e s)
        ++ run_effects cfg events (res_store (handle cfg e s))
  end.


(** Every token of the token map points into the heap, and every active
    token is a token of the token map. *)
Definition refs_resolve (s : Store) : Prop :=
  (∀ token r, submissions_by_token s !! token = Some r → r < length (heap s)) ∧
  (∀ user_id token,
     current_token_by_user_id s !! user_id = Some token →
     is_Some (submissions_by_token s !! token)).

(** A submission that is not done has no position. *)
Definition pending_unpositioned (s : Store) : Prop :=
  ∀ r x, heap s !! r = Some x → done x = false → position x = None.

(** Every entry of the completed structure holds a done submission and
    is filed under the referer and the candidate name of that
    submission. *)
Definition entries_filed (s : Store) : Prop :=
  ∀ a b c r,
    (a, b, c, r) ∈ entries (done_submissions_by_user s) →
    ∃ x, heap s !! r = Some x ∧ done x = true ∧ referer x = a ∧ candidate x = c.

(** The leads file, as last written, holds the rows of the completed
    structure; when it was never written the structure has no row. *)
Definition in_sync (file : option (list Submission)) (s : Store) : Prop :=
  match file with
  | Some rows => rows = leads s
  | None => leads s = []
  end.

(** ** The logger ([log.py]) *)

Module Log.
(** The five levels of the module. [COLORS] has an entry for each of
    them and for no other object, and the functions of the module are
    called with these only. *)
Inductive LoggingLevel := DEBUG | INFO | WARNING | ERROR | CRITICAL.

#[export] Instance LoggingLevel_eq_dec : EqDecision LoggingLevel.
Proof. solve_decision. Defined.

Definition name (level : LoggingLevel) : str :=
  match level with
  | DEBUG => Ascii.py "DEBUG"
  | INFO => Ascii.py "INFO"
  | WARNING => Ascii.py "WARNING"
  | ERROR => Ascii.py "ERROR"
  | CRITICAL => Ascii.py "CRITICAL"
  end.

Definition ordinal (level : LoggingLevel) : Z :=
  match level with
  | DEBUG => 0
  | INFO => 1
  | WARNING => 2
  | ERROR => 3
  | CRITICAL => 4
  end.

(** [__lt__] *)
Definition lt (self other : LoggingLevel) : bool :=
  (ordinal self <? ordinal other)%Z.

(** [__le__]: [self < other or self == other] *)
Definition le (self other : LoggingLevel) : bool :=
  lt self other || bool_decide (self = other).

(** [self > other]: the class has no [__gt__], so the comparison is the
    reflected [other < self]. *)
Definition gt (self other : LoggingLevel) : bool := lt other self.

Definition BLACK : Z := 0.
Definition RED : Z := 1.
Definition GREEN : Z := 2.
Definition YELLOW : Z := 3.
Definition BLUE : Z := 4.
Definition MAGENTA : Z := 5.
Definition CYAN : Z := 6.
Definition WHITE : Z := 7.

Definition ESC : N := 27.
Definition NEWLINE : N := 10.
Definition SLASH : N := 47.
Definition MINUS : N := 45.

(** The digits of a decimal numeral. *)
Fixpoint digits (d : Decimal.uint) : str :=
  match d with
  | Decimal.Nil => []
  | Decimal.D0 d => 48%N :: digits d
  | Decimal.D1 d => 49%N :: digits d
  | Decimal.D2 d => 50%N :: digits d
  | Decimal.D3 d => 51%N :: digits d
  | Decimal.D4 d => 52%N :: digits d
  | Decimal.D5 d => 53%N :: digits d
  | Decimal.D6 d => 54%N :: digits d
  | Decimal.D7 d => 55%N :: digits d
  | Decimal.D8 d => 56%N :: digits d
  | Decimal.D9 d => 57%N :: digits d
  end.

(** An [int] as [%d] and as an f-string field print it. *)
Definition str_of_int (n : Z) : str :=
  match Z.to_int n with
  | Decimal.Pos d => digits d
  | Decimal.Neg d => MINUS :: digits d
  end.

Definition RESET_SEQ : str := ESC :: Ascii.py "[0m".
(** [COLOR_SEQ % n] *)
Definition COLOR_SEQ (n : Z) : str :=
  ESC :: Ascii.py "[1;" ++ str_of_int n ++ Ascii.py "m".
Definition BOLD_SEQ : str := ESC :: Ascii.py "[1m".

Definition COLORS (level : LoggingLevel) : Z :=
  match level with
  | WARNING => YELLOW
  | INFO => GREEN
  | DEBUG => BLUE
  | CRITICAL => MAGENTA
  | ERROR => RED
  end.

Definition color_text (text : str) (color : Z) : str :=
  COLOR_SEQ (30 + color) ++ text ++ RESET_SEQ.

Definition bold_text (text : str) : str := BOLD_SEQ ++ text ++ RESET_SEQ.

(** A [str] in a field of the given width ([f"{s:20}"]): padded with
    spaces on the right, never cut. *)
Definition ljust (width : nat) (s : str) : str :=
  s ++ replicate (width - length s) SPACE.

Definition format_message (message : str) (level : LoggingLevel) : str :=
  ljust 20 (color_text (name level) (COLORS level))
    ++ Ascii.py " | " ++ bold_text (Ascii.py "logger")
    ++ Ascii.py " | " ++ message.

(** [os.path.basename] of a POSIX path: what follows the last slash. *)
Definition basename (path : str) : str := List.last (split SLASH path) [].

(** [message[-1] += suffix]; the list [log] builds is never empty. *)
Fixpoint add_to_last (message : list str) (suffix : str) : list str :=
  match message with
  | [] => []
  | [line] => [line ++ suffix]
  | line :: message => line :: add_to_last message suffix
  end.

Inductive Stream := stdout | stderr.

(** A call of [print]: the stream and the text. *)
Inductive Output := Print (file : Stream) (message : str).

(** [log(args, level)], with the value of the module variable
    [logging_level] and the file name and the line number of the frame
    of the caller; the arguments are strings, as in every call of
    [app.py]. [None]: nothing is printed. *)
Definition log (logging_level : LoggingLevel) (filename : str)
    (line_number : Z) (args : list str) (level : LoggingLevel)
    : option Output :=
  if lt level logging_level then None
  else
    let message :=
      (λ arg, format_message arg level) <$> split NEWLINE (join SPACE args) in
    let message :=
      add_to_last message
        (Ascii.py " "
           ++ bold_text (Ascii.py "(" ++ basename filename ++ Ascii.py ":"
                           ++ str_of_int line_number ++ Ascii.py ")")) in
    let message := join NEWLINE message in
    if gt level WARNING then Some (Print stderr message)
    else Some (Print stdout message).

Definition is_debug_mode (logging_level : LoggingLevel) : bool :=
  bool_decide (logging_level = DEBUG).

Definition debug (logging_level : LoggingLevel) (filename : str)
    (line_number : Z) (s : list str) : option Output :=
  log logging_level filename line_number s DEBUG.
Definition info (logging_level : LoggingLevel) (filename : str)
    (line_number : Z) (s : list str) : option Output :=
  log logging_level filename line_number s INFO.
Definition warn (logging_level : LoggingLevel) (filename : str)
    (line_number : Z) (s : list str) : option Output :=
  log logging_level filename line_number s WARNING.
Definition error (logging_level : LoggingLevel) (filename : str)
    (line_number : Z) (s : list str) : option Output :=
  log logging_level filename line_number s ERROR.
Definition critical (logging_level : LoggingLevel) (filename : str)
    (line_number : Z) (s : list str) : option Output :=
  log logging_level filename line_number s CRITICAL.
End Log.


(** ** Facts about ordered dictionaries *)

Section odict_facts.
Context {K V : Type} `{EqDecision K}.
Implicit Types (d : odict K V) (k : K) (v : V).

Lemma od_get_set k k' v d :
  od_get k' (od_set k v d) = if decide (k' = k) then Some v else od_get k' d.
Proof.
  induction d as [|[k0 v0] d IH]; simpl.
  - done.
  - destruct (decide (k = k0)) as [->|Hne]; simpl.
    + destruct (decide (k' = k0)); done.
    + rewrite IH. destruct (decide (k' = k0)) as [->|]; [|done].
      destruct (decide (k0 = k)); congruence.
Qed.

Lemma od_get_set_eq k v d : od_get k (od_set k v d) = Some v.
Proof. rewrite od_get_set. by rewrite decide_True. Qed.

Lemma od_get_set_ne k k' v d : k' ≠ k → od_get k' (od_set k v d) = od_get k' d.
Proof. intros. rewrite od_get_set. by rewrite decide_False. Qed.

Lemma od_set_id k v d : od_get k d = Some v → od_set k v d = d.
Proof.
  induction d as [|[k0 v0] d IH]; simpl; [done|].
  destruct (decide (k = k0)) as [->|Hne]; intros Hget.
  - by simplify_eq.
  - by rewrite IH.
Qed.

Lemma od_getitem_default_fst dflt k d :
  (od_getitem_default dflt k d).1 = default dflt (od_get k d).
Proof. unfold od_getitem_default. by destruct (od_get k d). Qed.

Lemma od_getitem_default_snd dflt k d :
  (od_getitem_default dflt k d).2 =
    match od_get k d with Some _ => d | None => od_set k dflt d end.
Proof. unfold od_getitem_default. by destruct (od_get k d). Qed.

Lemma od_get_getitem_default dflt k k' d :
  od_get k' (od_getitem_default dflt k d).2 =
    if decide (k' = k) then Some (default dflt (od_get k d)) else od_get k' d.
Proof.
  rewrite od_getitem_default_snd. destruct (od_get k d) eqn:Hk.
  - destruct (decide (k' = k)) as [->|]; done.
  - by rewrite od_get_set.
Qed.
End odict_facts.

Section odict_more.
Context {K V : Type} `{EqDecision K}.
Implicit Types (d : odict K V) (k : K) (v : V).

Lemma od_set_set k v w d : od_set k v (od_set k w d) = od_set k v d.
Proof.
  induction d as [|[k0 v0] d IH]; simpl.
  - by rewrite decide_True.
  - destruct (decide (k = k0)) as [->|Hne]; simpl.
    + by rewrite decide_True.
    + rewrite decide_False by done. by rewrite IH.
Qed.

Lemma od_get_None_values k d : od_get k d = None → k ∉ d.*1.
Proof.
  induction d as [|[k0 v0] d IH]; simpl; [intros _; apply not_elem_of_nil|].
  destruct (decide (k = k0)); [done|]. intros Hd.
  rewrite not_elem_of_cons. auto.
Qed.
End odict_more.

(** ** Facts about the nested structure *)

Lemma getitem2_eq a b d :
  getitem2 a b d =
    let by_position := default [] (od_get a d) in
    let by_name := default [] (od_get b by_position) in
    (by_name, od_set a (od_set b by_name by_position) d).
Proof.
  unfold getitem2, od_getitem_default.
  destruct (od_get a d) as [bp|] eqn:Ha; simpl.
  - destruct (od_get b bp) as [bn|] eqn:Hb; simpl.
    + by rewrite (od_set_id b bn bp).
    + done.
  - by rewrite od_set_set.
Qed.

Lemma setitem3_eq a b c v d :
  setitem3 a b c v d =
    let by_position := default [] (od_get a d) in
    let by_name := default [] (od_get b by_position) in
    od_set a (od_set b (od_set c v by_name) by_position) d.
Proof.
  unfold setitem3, od_getitem_default.
  destruct (od_get a d) as [bp|] eqn:Ha; simpl.
  - destruct (od_get b bp) as [bn|] eqn:Hb; simpl.
    + done.
    + by rewrite od_set_set.
  - rewrite decide_True by done. by rewrite od_set_set.
Qed.

Lemma getitem2_fst a b d : (getitem2 a b d).1 = default [] (lookup2 a b d).
Proof.
  rewrite getitem2_eq. unfold lookup2. simpl.
  by destruct (od_get a d).
Qed.

Lemma getitem2_hit a b d by_name :
  lookup2 a b d = Some by_name → getitem2 a b d = (by_name, d).
Proof.
  unfold lookup2. rewrite getitem2_eq.
  destruct (od_get a d) as [bp|] eqn:Ha; simpl; [|done].
  intros Hb. rewrite Hb. simpl.
  by rewrite (od_set_id b by_name bp), (od_set_id a bp d).
Qed.

Lemma lookup3_getitem2 a b a' b' c' d :
  lookup3 a' b' c' (getitem2 a b d).2 = lookup3 a' b' c' d.
Proof.
  rewrite getitem2_eq. unfold lookup3, lookup2. simpl.
  rewrite od_get_set. destruct (decide (a' = a)) as [->|]; [|done].
  simpl. rewrite od_get_set. destruct (decide (b' = b)) as [->|].
  - destruct (od_get a d) as [bp|]; simpl; [|done].
    by destruct (od_get b bp).
  - by destruct (od_get a d).
Qed.

Lemma lookup3_getitem_default a a' b' c' d :
  lookup3 a' b' c' (od_getitem_default [] a d).2 = lookup3 a' b' c' d.
Proof.
  unfold lookup3, lookup2. rewrite od_get_getitem_default.
  destruct (decide (a' = a)) as [->|]; [|done].
  by destruct (od_get a d).
Qed.

Lemma lookup3_setitem3 a b c v a' b' c' d :
  lookup3 a' b' c' (setitem3 a b c v d) =
    if decide (a' = a ∧ b' = b ∧ c' = c) then Some v else lookup3 a' b' c' d.
Proof.
  rewrite setitem3_eq. unfold lookup3, lookup2. simpl.
  rewrite od_get_set. destruct (decide (a' = a)) as [->|Ha]; simpl.
  - rewrite od_get_set. destruct (decide (b' = b)) as [->|Hb]; simpl.
    + rewrite od_get_set. destruct (decide (c' = c)) as [->|Hc].
      * by rewrite decide_True.
      * rewrite decide_False by (intros (?&?&?); congruence).
        destruct (od_get a d) as [bp|]; simpl; [|done].
        by destruct (od_get b bp).
    + rewrite decide_False by (intros (?&?&?); congruence). by destruct (od_get a d).
  - rewrite decide_False by (intros (?&?&?); congruence). done.
Qed.

Lemma with_done_id s : with_done (done_submissions_by_user s) s = s.
Proof. by destruct s. Qed.

Lemma with_heap_id s : with_heap (heap s) s = s.
Proof. by destruct s. Qed.

Lemma completed_count_lookup s u p :
  0 < completed_count s u p →
  ∃ by_name,
    lookup2 (Some u) (Some p) (done_submissions_by_user s) = Some by_name ∧
    completed_count s u p = length by_name.
Proof.
  unfold completed_count.
  destruct (lookup2 _ _ _) as [m|]; simpl; [eauto | lia].
Qed.

(** ** The nomination command, case by case *)

Section submit_cases.
Context `{PyLib}.
Variable cfg : Config.
Implicit Types (command : SubmitCommand) (s : Store).

Lemma partybot_submit_eq command s :
  partybot_submit cfg command s =
    if decide (MAX_COMMAND_LENGTH < length (cmd_text command)) then
      mkResult s [Ack; Respond MsgTooLong] None
    else
      match urlparse_scheme (candidate_url_of command) with
      | None => mkResult s [Ack] (Some ValueError)
      | Some scheme =>
          let name := candidate_name_of command in
          let warned :=
            if truthy (Some scheme) then []
            else [LogWarn (LogMalformedUrl (candidate_url_of command)
                                           (cmd_user_name command));
                  Respond (MsgBadUrl (candidate_url_of command))] in
          if negb (truthy (Some name)) then
            mkResult s (Ack :: warned ++ [Respond MsgEmptyName]) None
          else if decide (in_pool cfg (canonicalize_name name)) then
            mkResult s (Ack :: warned ++ [Respond (MsgKnown name)]) None
          else if decide (canonicalize_name name ∈ submitted_candidates s) then
            mkResult s (Ack :: warned ++ [Respond (MsgDuplicate name)]) None
          else
            let x := mkSubmission (Some (cmd_user_name command)) (Some name)
                       (Some (candidate_url_of command))
                       None None None None false in
            mkResult
              (mkStore (heap s ++ [set_ts (Some (cmd_posted_ts command)) x])
                 ({[canonicalize_name name]} ∪ submitted_candidates s)
                 (done_submissions_by_user s)
                 (<[cmd_uuid command := length (heap s)]> (submissions_by_token s))
                 (<[cmd_user_id command := cmd_uuid command]>
                    (current_token_by_user_id s)))
              (Ack :: warned ++
                 [LogInfo (LogInitiated x);
                  PostMessage (cmd_user_id command)
                    (MsgPicker name (cmd_uuid command) (open_positions cfg))])
              None
      end.
Proof. reflexivity. Qed.

Ltac submit_case Hlen Hurl :=
  let scheme := fresh "scheme" in
  let Hs := fresh "Hs" in
  destruct Hurl as [scheme Hs];
  rewrite partybot_submit_eq; rewrite decide_False by lia;
  unfold url_warning; rewrite Hs; cbv zeta.

Lemma submit_too_long command s :
  MAX_COMMAND_LENGTH < length (cmd_text command) →
  partybot_submit cfg command s = mkResult s [Ack; Respond MsgTooLong] None.
Proof. intros. rewrite partybot_submit_eq. by rewrite decide_True. Qed.

Lemma submit_bad_url command s :
  length (cmd_text command) ≤ MAX_COMMAND_LENGTH →
  ¬ url_parses command →
  partybot_submit cfg command s = mkResult s [Ack] (Some ValueError).
Proof.
  intros Hlen Hurl. rewrite partybot_submit_eq. rewrite decide_False by lia.
  unfold url_parses in Hurl.
  destruct (urlparse_scheme (candidate_url_of command)); [|done].
  destruct Hurl. by eexists.
Qed.

Lemma submit_empty_name command s :
  length (cmd_text command) ≤ MAX_COMMAND_LENGTH →
  url_parses command →
  candidate_name_of command = [] →
  partybot_submit cfg command s =
    mkResult s (Ack :: url_warning command ++ [Respond MsgEmptyName]) None.
Proof.
  intros Hlen Hurl Hname. submit_case Hlen Hurl. rewrite Hname.
  by destruct scheme.
Qed.

Lemma submit_known command s :
  length (cmd_text command) ≤ MAX_COMMAND_LENGTH →
  url_parses command →
  candidate_name_of command ≠ [] →
  in_pool cfg (canonicalize_name (candidate_name_of command)) →
  partybot_submit cfg command s =
    mkResult s (Ack :: url_warning command ++
                  [Respond (MsgKnown (candidate_name_of command))]) None.
Proof.
  intros Hlen Hurl Hname Hknown. submit_case Hlen Hurl.
  destruct (candidate_name_of command) as [|c name] eqn:E; [done|]. simpl.
  rewrite decide_True by done. by destruct scheme.
Qed.

Lemma submit_duplicate command s :
  length (cmd_text command) ≤ MAX_COMMAND_LENGTH →
  url_parses command →
  candidate_name_of command ≠ [] →
  ¬ in_pool cfg (canonicalize_name (candidate_name_of command)) →
  canonicalize_name (candidate_name_of command) ∈ submitted_candidates s →
  partybot_submit cfg command s =
    mkResult s (Ack :: url_warning command ++
                  [Respond (MsgDuplicate (candidate_name_of command))]) None.
Proof.
  intros Hlen Hurl Hname Hknown Hdup. submit_case Hlen Hurl.
  destruct (candidate_name_of command) as [|c name] eqn:E; [done|]. simpl.
  rewrite decide_False by done. rewrite decide_True by done.
  by destruct scheme.
Qed.

Lemma submit_fresh command s :
  length (cmd_text command) ≤ MAX_COMMAND_LENGTH →
  url_parses command →
  candidate_name_of command ≠ [] →
  ¬ in_pool cfg (canonicalize_name (candidate_name_of command)) →
  canonicalize_name (candidate_name_of command) ∉ submitted_candidates s →
  partybot_submit cfg command s =
    let x := mkSubmission (Some (cmd_user_name command))
               (Some (candidate_name_of command))
               (Some (candidate_url_of command)) None None None None false in
    mkResult
      (mkStore (heap s ++ [set_ts (Some (cmd_posted_ts command)) x])
         ({[canonicalize_name (candidate_name_of command)]}
            ∪ submitted_candidates s)
         (done_submissions_by_user s)
         (<[cmd_uuid command := length (heap s)]> (submissions_by_token s))
         (<[cmd_user_id command := cmd_uuid command]>
            (current_token_by_user_id s)))
      (Ack :: url_warning command ++
         [LogInfo (LogInitiated x);
          PostMessage (cmd_user_id command)
            (MsgPicker (candidate_name_of command) (cmd_uuid command)
                       (open_positions cfg))])
      None.
Proof.
  intros Hlen Hurl Hname Hknown Hdup. submit_case Hlen Hurl.
  destruct (candidate_name_of command) as [|c name] eqn:E; [done|]. simpl.
  rewrite decide_False by done. rewrite decide_False by done.
  by destruct scheme.
Qed.
End submit_cases.

Section submit_verdict.
Context `{PyLib}.
Variable cfg : Config.
Implicit Types (command : SubmitCommand) (s : Store).

Lemma url_warning_no_picker command :
  existsb is_picker (url_warning command) = false.
Proof.
  unfold url_warning.
  by destruct (urlparse_scheme (candidate_url_of command)) as [[|c scheme]|].
Qed.

(** The five conditions under which a nomination is accepted. *)
Lemma accepted_iff command s :
  accepted (partybot_submit cfg command s) ↔
    length (cmd_text command) ≤ MAX_COMMAND_LENGTH ∧
    url_parses command ∧
    candidate_name_of command ≠ [] ∧
    ¬ in_pool cfg (canonicalize_name (candidate_name_of command)) ∧
    canonicalize_name (candidate_name_of command) ∉ submitted_candidates s.
Proof.
  unfold accepted.
  destruct (decide (length (cmd_text command) ≤ MAX_COMMAND_LENGTH)) as [Hlen|Hlen];
    [|rewrite submit_too_long by lia; simpl; naive_solver].
  destruct (decide (url_parses command)) as [Hurl|Hurl];
    [|rewrite submit_bad_url by done; simpl; naive_solver].
  destruct (decide (candidate_name_of command = [])) as [Hname|Hname];
    [rewrite submit_empty_name by done; simpl;
     rewrite existsb_app, url_warning_no_picker; simpl; naive_solver|].
  destruct (decide (in_pool cfg (canonicalize_name (candidate_name_of command))))
    as [Hknown|Hknown];
    [rewrite submit_known by done; simpl;
     rewrite existsb_app, url_warning_no_picker; simpl; naive_solver|].
  destruct (decide (canonicalize_name (candidate_name_of command)
                      ∈ submitted_candidates s)) as [Hdup|Hdup];
    [rewrite submit_duplicate by done; simpl;
     rewrite existsb_app, url_warning_no_picker; simpl; naive_solver|].
  rewrite submit_fresh by done. simpl.
  rewrite existsb_app, url_warning_no_picker. simpl. naive_solver.
Qed.

(** A nomination that is not accepted leaves the store as it was. *)
Lemma not_accepted_store command s :
  ¬ accepted (partybot_submit cfg command s) →
  res_store (partybot_submit cfg command s) = s.
Proof.
  rewrite accepted_iff. intros Hrej.
  destruct (decide (length (cmd_text command) ≤ MAX_COMMAND_LENGTH));
    [|by rewrite submit_too_long by lia].
  destruct (decide (url_parses command)); [|by rewrite submit_bad_url].
  destruct (decide (candidate_name_of command = []));
    [by rewrite submit_empty_name|].
  destruct (decide (in_pool cfg (canonicalize_name (candidate_name_of command))));
    [by rewrite submit_known|].
  destruct (decide (canonicalize_name (candidate_name_of command)
                      ∈ submitted_candidates s));
    [by rewrite submit_duplicate|].
  tauto.
Qed.

(** An accepted nomination records its canonical name. *)
Lemma accepted_submitted command s :
  accepted (partybot_submit cfg command s) →
  canonicalize_name (candidate_name_of command)
    ∈ submitted_candidates (res_store (partybot_submit cfg command s)).
Proof.
  intros (Hlen & Hurl & Hname & Hknown & Hdup)%accepted_iff.
  rewrite submit_fresh by done. simpl. set_solver.
Qed.
End submit_verdict.

(** ** The position pick, case by case *)

Lemma get_submission_with_done d s token :
  get_submission (with_done d s) token = get_submission s token.
Proof. done. Qed.

Lemma get_submission_None s tok :
  submissions_by_token s !! tok = None → get_submission s (Some tok) = None.
Proof. unfold get_submission. simpl. by intros ->. Qed.

Section pick_cases.
Implicit Types (body : PickBody) (s : Store).

Lemma pick_refused body s :
  CANDIDATE_LIMIT ≤ completed_count s (pick_username body) (pick_text body) →
  pick_position body s =
    mkResult s [Ack; PostMessage (pick_user_id body) (MsgLimit (pick_text body))]
             None.
Proof.
  intros Hq.
  destruct (completed_count_lookup s (pick_username body) (pick_text body))
    as (by_name & Hl & Hc); [unfold CANDIDATE_LIMIT in Hq; lia|].
  unfold pick_position. rewrite (getitem2_hit _ _ _ _ Hl).
  rewrite with_done_id. rewrite decide_True by lia. done.
Qed.

Lemma pick_unknown body s :
  completed_count s (pick_username body) (pick_text body) < CANDIDATE_LIMIT →
  get_submission s (Some (token_of (pick_value body))) = None →
  pick_position body s =
    mkResult
      (with_done (getitem2 (Some (pick_username body)) (Some (pick_text body))
                           (done_submissions_by_user s)).2 s)
      [Ack; LogError (LogNoOpenSubmission (pick_username body));
       PostMessage (pick_user_id body) MsgOops]
      None.
Proof.
  intros Hq Hget. unfold pick_position.
  pose proof (getitem2_fst (Some (pick_username body)) (Some (pick_text body))
                (done_submissions_by_user s)) as Hfst.
  destruct (getitem2 _ _ _) as [by_name d]. simpl in Hfst. subst by_name.
  fold (completed_count s (pick_username body) (pick_text body)).
  rewrite decide_False by lia.
  rewrite get_submission_with_done.
  fold (token_of (pick_value body)). by rewrite Hget.
Qed.

Lemma pick_completes body s r x :
  completed_count s (pick_username body) (pick_text body) < CANDIDATE_LIMIT →
  get_submission s (Some (token_of (pick_value body))) = Some (r, x) →
  pick_position body s =
    let s1 :=
      with_done (getitem2 (Some (pick_username body)) (Some (pick_text body))
                          (done_submissions_by_user s)).2 s in
    let x1 := set_position (Some (pick_text body)) x in
    let x2 := set_ts (Some (pick_message_ts body)) x1 in
    let fin := finish_submission (pick_user_id body) r x2 s1 in
    mkResult fin.1
      ([Ack; PostMessage (pick_user_id body)
               (MsgGotIt (pick_text body) (candidate x));
        LogInfo (LogPositionSelected x1)] ++ fin.2)
      None.
Proof.
  intros Hq Hget. unfold pick_position.
  pose proof (getitem2_fst (Some (pick_username body)) (Some (pick_text body))
                (done_submissions_by_user s)) as Hfst.
  destruct (getitem2 _ _ _) as [by_name d]. simpl in Hfst. subst by_name.
  fold (completed_count s (pick_username body) (pick_text body)).
  rewrite decide_False by lia.
  rewrite get_submission_with_done.
  fold (token_of (pick_value body)). by rewrite Hget.
Qed.
End pick_cases.

(** ** User-input errors *)

Section rejections.
Context `{PyLib}.
Variable cfg : Config.


Lemma respond_url_warning (command : SubmitCommand) m :
  Respond m ∈ url_warning command → ¬ user_error m.
Proof.
  unfold url_warning.
  destruct (urlparse_scheme (candidate_url_of command)) as [[|c scheme]|];
    intros Hin%list_elem_of_In; simpl in Hin;
    intuition (try discriminate); simplify_eq; auto.
Qed.

Lemma respond_user_error (command : SubmitCommand) (s : Store) m :
  user_error m →
  Respond m ∈ res_effects (partybot_submit cfg command s) →
  ¬ accepted (partybot_submit cfg command s) ∧
  res_raised (partybot_submit cfg command s) = None.
Proof.
  intros Hm Hin.
  destruct (decide (length (cmd_text command) ≤ MAX_COMMAND_LENGTH));
    [|split; [rewrite accepted_iff; tauto|by rewrite submit_too_long by lia]].
  destruct (decide (url_parses command)) as [Hurl|Hurl];
    [|rewrite submit_bad_url in Hin by done;
      apply list_elem_of_In in Hin; simpl in Hin; intuition discriminate].
  destruct (decide (candidate_name_of command = []));
    [split; [rewrite accepted_iff; tauto|by rewrite submit_empty_name]|].
  destruct (decide (in_pool cfg (canonicalize_name (candidate_name_of command))));
    [split; [rewrite accepted_iff; tauto|by rewrite submit_known]|].
  destruct (decide (canonicalize_name (candidate_name_of command)
                      ∈ submitted_candidates s));
    [split; [rewrite accepted_iff; tauto|by rewrite submit_duplicate]|].
  rewrite submit_fresh in Hin by done. simpl in Hin.
  apply elem_of_cons in Hin as [?|Hin]; [done|].
  apply elem_of_app in Hin as [Hin|Hin].
  - by apply respond_url_warning in Hin.
  - apply list_elem_of_In in Hin. simpl in Hin. intuition discriminate.
Qed.

Lemma limit_posted (body : PickBody) (s : Store) channel p :
  PostMessage channel (MsgLimit p) ∈ res_effects (pick_position body s) →
  pick_position body s =
    mkResult s [Ack; PostMessage (pick_user_id body) (MsgLimit (pick_text body))]
             None.
Proof.
  intros Hin.
  destruct (decide (CANDIDATE_LIMIT
                      ≤ completed_count s (pick_username body) (pick_text body)));
    [by apply pick_refused|].
  destruct (get_submission s (Some (token_of (pick_value body))))
    as [[r x]|] eqn:Hget.
  - rewrite (pick_completes _ _ r x) in Hin by (done || lia).
    apply list_elem_of_In in Hin. simpl in Hin. intuition discriminate.
  - rewrite pick_unknown in Hin by (done || lia).
    apply list_elem_of_In in Hin. simpl in Hin. intuition discriminate.
Qed.

(** C5. Each user-input error is reported: a command of more than
    [MAX_COMMAND_LENGTH] (256) characters, and, for a command within the
    limit whose URL [urlparse] accepts, an empty candidate name, a
    candidate of the known pool and a candidate already submitted; so is
    a position pick over the quota. A handler that reports one of them
    returns normally, with the whole store (heap of submissions,
    submitted set, completed structure, token map, active-token map) as
    it found it. *)
Theorem user_errors_leave_store (command : SubmitCommand) (body : PickBody)
    (s : Store) :
  let r := partybot_submit cfg command s in
  let name := candidate_name_of command in
  (MAX_COMMAND_LENGTH < length (cmd_text command) →
     Respond MsgTooLong ∈ res_effects r) ∧
  (length (cmd_text command) ≤ MAX_COMMAND_LENGTH → url_parses command →
   name = [] →
     Respond MsgEmptyName ∈ res_effects r) ∧
  (length (cmd_text command) ≤ MAX_COMMAND_LENGTH → url_parses command →
   name ≠ [] → in_pool cfg (canonicalize_name name) →
     Respond (MsgKnown name) ∈ res_effects r) ∧
  (length (cmd_text command) ≤ MAX_COMMAND_LENGTH → url_parses command →
   name ≠ [] → ¬ in_pool cfg (canonicalize_name name) →
   canonicalize_name name ∈ submitted_candidates s →
     Respond (MsgDuplicate name) ∈ res_effects r) ∧
  (CANDIDATE_LIMIT ≤ completed_count s (pick_username body) (pick_text body) →
     PostMessage (pick_user_id body) (MsgLimit (pick_text body))
       ∈ res_effects (pick_position body s)) ∧
  (∀ m, user_error m → Respond m ∈ res_effects r →
     res_store r = s ∧ res_raised r = None) ∧
  (∀ channel p,
     PostMessage channel (MsgLimit p) ∈ res_effects (pick_position body s) →
     res_store (pick_position body s) = s ∧
     res_raised (pick_position body s) = None).
Proof.
  intros r name. subst r name.
  split; [|split; [|split; [|split; [|split; [|split]]]]].
  - intros. rewrite submit_too_long by done. simpl. set_solver.
  - intros. rewrite submit_empty_name by done. simpl. set_solver.
  - intros. rewrite submit_known by done. simpl. set_solver.
  - intros. rewrite submit_duplicate by done. simpl. set_solver.
  - intros. rewrite pick_refused by done. simpl. set_solver.
  - intros m Hm Hin.
    destruct (respond_user_error command s m Hm Hin) as [Hrej Hret].
    split; [by apply not_accepted_store|done].
  - intros channel p Hin. by rewrite (limit_posted body s channel p Hin).
Qed.
End rejections.

(** ** Cancel and message, case by case *)

Section cancel_message_cases.
Context `{PyLib}.

Lemma cancel_unknown (body : CancelBody) s :
  get_submission s (Some (token_of (cancel_value body))) = None →
  cancel_submission body s = mkResult s [Ack] (Some AttributeError).
Proof.
  intros Hget. unfold cancel_submission.
  fold (token_of (cancel_value body)). by rewrite Hget.
Qed.

Lemma cancel_absent_name (body : CancelBody) s r x name :
  get_submission s (Some (token_of (cancel_value body))) = Some (r, x) →
  candidate x = Some name →
  canonicalize_name name ∉ submitted_candidates s →
  cancel_submission body s = mkResult s [Ack] (Some KeyError).
Proof.
  intros Hget Hname Hout. unfold cancel_submission.
  fold (token_of (cancel_value body)). rewrite Hget, Hname.
  by rewrite decide_False.
Qed.

Lemma cancel_removes (body : CancelBody) s r x name :
  get_submission s (Some (token_of (cancel_value body))) = Some (r, x) →
  candidate x = Some name →
  canonicalize_name name ∈ submitted_candidates s →
  cancel_submission body s =
    mkResult
      (with_submitted (submitted_candidates s ∖ {[canonicalize_name name]}) s)
      [Ack; PostMessage (cancel_user_id body) (MsgCanceled (Some name));
       ChatDelete (cancel_user_id body) (ts x); LogInfo (LogCanceled x)]
      None.
Proof.
  intros Hget Hname Hin. unfold cancel_submission.
  fold (token_of (cancel_value body)). rewrite Hget, Hname.
  by rewrite decide_True.
Qed.

(** The store a cancel leaves differs from the one it found in the
    submitted set at most. *)
Lemma cancel_store (body : CancelBody) s :
  ∃ c, res_store (cancel_submission body s) = with_submitted c s.
Proof.
  unfold cancel_submission.
  destruct (get_submission _ _) as [[r x]|]; [|exists (submitted_candidates s); by destruct s].
  destruct (candidate x); [|exists (submitted_candidates s); by destruct s].
  case_decide; [by eexists|].
  exists (submitted_candidates s). by destruct s.
Qed.

Lemma message_store (body : MessageBody) s :
  let s' := res_store (extra_info_message body s) in
  s' = s ∨
  ∃ user_id r x,
    msg_user body = Some user_id ∧ user_id ≠ [] ∧
    get_submission s (current_token_by_user_id s !! user_id) = Some (r, x) ∧
    done x = false ∧
    let s1 := with_heap (<[r := with_info body x]> (heap s)) s in
    if truthy (position x) then
      s' = (finish_submission user_id r (with_info body x) s1).1
    else s' = s1.
Proof.
  unfold extra_info_message.
  destruct (msg_user body) as [[|c u]|] eqn:Hu; [by left| |by left].
  destruct (get_submission _ _) as [[r x]|] eqn:Hget; [|by left].
  destruct (done x) eqn:Hdone; [by left|].
  right. exists (c :: u), r, x. repeat split; [done..|].
  unfold with_info.
  destruct (msg_file body) as [f|]; simpl;
    destruct (truthy (position x)); done.
Qed.
End cancel_message_cases.

(** ** Every event is at most two elementary steps *)

Section micro.
Context `{PyLib}.
Variable cfg : Config.

Lemma get_submission_heap s token r x :
  get_submission s token = Some (r, x) → heap s !! r = Some x.
Proof.
  unfold get_submission. destruct token as [tok|]; simpl; [|done].
  destruct (submissions_by_token s !! tok) as [r'|]; simpl; [|done].
  destruct (heap s !! r') as [x'|] eqn:E; simpl; [|done].
  by intros [= <- <-].
Qed.

Lemma finish_micro user_id r x0 x s :
  heap s !! r = Some x0 → candidate x = candidate x0 →
  micro cfg s (finish_submission user_id r x s).1.
Proof.
  intros Hr Hc.
  apply (micro_finish _ _ _ r x0 (set_done true x)); simpl; try done.
  intros a b c. apply lookup3_setitem3.
Qed.

Lemma submit_store (command : SubmitCommand) s :
  let s' := res_store (partybot_submit cfg command s) in
  s' = s ∨
  (accepted (partybot_submit cfg command s) ∧
   s' = mkStore
          (heap s ++ [mkSubmission (Some (cmd_user_name command))
                        (Some (candidate_name_of command))
                        (Some (candidate_url_of command)) None
                        (Some (cmd_posted_ts command)) None None false])
          ({[canonicalize_name (candidate_name_of command)]}
             ∪ submitted_candidates s)
          (done_submissions_by_user s)
          (<[cmd_uuid command := length (heap s)]> (submissions_by_token s))
          (<[cmd_user_id command := cmd_uuid command]>
             (current_token_by_user_id s))).
Proof.
  simpl.
  destruct (decide (accepted (partybot_submit cfg command s))) as [Hacc|Hrej].
  - right. split; [done|].
    apply accepted_iff in Hacc as (Hlen & Hurl & Hname & Hknown & Hdup).
    by rewrite submit_fresh.
  - left. by apply not_accepted_store.
Qed.

Lemma pick_store (body : PickBody) s :
  let s' := res_store (pick_position body s) in
  let s1 :=
    with_done (getitem2 (Some (pick_username body)) (Some (pick_text body))
                        (done_submissions_by_user s)).2 s in
  s' = s ∨ s' = s1 ∨
  ∃ r x,
    get_submission s (Some (token_of (pick_value body))) = Some (r, x) ∧
    s' = (finish_submission (pick_user_id body) r
            (set_ts (Some (pick_message_ts body))
               (set_position (Some (pick_text body)) x)) s1).1.
Proof.
  simpl.
  destruct (decide (CANDIDATE_LIMIT
                      ≤ completed_count s (pick_username body) (pick_text body))).
  - left. by rewrite pick_refused.
  - destruct (get_submission s (Some (token_of (pick_value body))))
      as [[r x]|] eqn:Hget.
    + right; right. exists r, x. split; [done|].
      by rewrite (pick_completes _ _ r x) by (done || lia).
    + right; left. by rewrite pick_unknown by (done || lia).
Qed.

Lemma handle_micro e s : rtc (micro cfg) s (res_store (handle cfg e s)).
Proof.
  destruct e as [command|command|body|body|body]; simpl.
  - destruct (submit_store command s) as [->|[Hacc ->]]; [done|].
    apply accepted_iff in Hacc as (Hlen & Hurl & Hname & Hknown & Hdup).
    apply rtc_once. eapply micro_alloc; simpl; [done..| |done].
    by eexists.
  - unfold partybot_report.
    pose proof (λ a b c, lookup3_getitem_default (Some (rep_user_name command))
                           a b c (done_submissions_by_user s)) as Hl.
    destruct (od_getitem_default _ _ _) as [by_position d]. simpl in *.
    apply rtc_once. by apply micro_read.
  - destruct (pick_store body s) as [->|[->|(r & x & Hget & ->)]]; [done| |].
    + apply rtc_once, micro_read; [done|].
      intros a b c. apply lookup3_getitem2.
    + apply rtc_l with
        (with_done (getitem2 (Some (pick_username body)) (Some (pick_text body))
                             (done_submissions_by_user s)).2 s).
      * apply micro_read; [done|].
        intros a b c. simpl. apply lookup3_getitem2.
      * apply rtc_once. eapply finish_micro; simpl.
        -- eapply get_submission_heap, Hget.
        -- done.
  - destruct (cancel_store body s) as [c ->]. apply rtc_once. by apply micro_read.
  - destruct (message_store body s)
      as [->|(u & r & x & Hu & Hne & Hget & Hdone & Hs)]; [done|].
    cbv zeta in Hs. apply get_submission_heap in Hget.
    assert (micro cfg s (with_heap (<[r := with_info body x]> (heap s)) s)) as Hw.
    { eapply (micro_write _ _ _ r x); simpl; try done.
      - unfold with_info. by destruct (msg_file body).
      - unfold with_info. by destruct (msg_file body). }
    destruct (truthy (position x)); rewrite Hs.
    + eapply rtc_l; [exact Hw|].
      apply rtc_once.
      apply (finish_micro u r (with_info body x) (with_info body x)); [|done].
      apply list_lookup_insert_eq. by eapply lookup_lt_Some.
    + by apply rtc_once.
Qed.
End micro.

(** ** Invariants of the reachable stores *)

Section invariants.
Context `{PyLib}.
Variable cfg : Config.

Lemma run_cons e events s :
  run cfg (e :: events) s = run cfg events (res_store (handle cfg e s)).
Proof. done. Qed.

Lemma run_app events1 events2 s :
  run cfg (events1 ++ events2) s = run cfg events2 (run cfg events1 s).
Proof. unfold run. apply foldl_app. Qed.

Lemma rtc_micro_invariant (P : Store → Prop) :
  (∀ s s', micro cfg s s' → P s → P s') →
  ∀ s s', rtc (micro cfg) s s' → P s → P s'.
Proof. intros Hstep s s' Hrtc. induction Hrtc; eauto. Qed.

Lemma run_invariant (P : Store → Prop) :
  (∀ s s', micro cfg s s' → P s → P s') →
  ∀ events s, P s → P (run cfg events s).
Proof.
  intros Hstep events. induction events as [|e events IH]; intros s Hs; [done|].
  rewrite run_cons. apply IH.
  eapply rtc_micro_invariant; [exact Hstep|apply handle_micro|exact Hs].
Qed.

Lemma reachable_invariant (P : Store → Prop) :
  P empty_store →
  (∀ s s', micro cfg s s' → P s → P s') →
  ∀ s, reachable cfg s → P s.
Proof. intros H0 Hstep s [events ->]. by apply run_invariant. Qed.

Lemma micro_heap_named s s' :
  micro cfg s s' → heap_named cfg s → heap_named cfg s'.
Proof.
  unfold heap_named.
  intros [s1 s2 Hh _|s1 s2 x Hh _ Hx _|s1 s2 r x0 x Hr Hh Hc _ _ _
          |s1 s2 r x0 x Hr Hh Hc _ _] Hnamed; rewrite Hh.
  - done.
  - apply Forall_app. split; [done|]. by apply Forall_singleton.
  - apply Forall_insert; [done|].
    rewrite Forall_lookup in Hnamed.
    destruct (Hnamed r x0 Hr) as (name & Hn & ?). exists name. by rewrite Hc.
  - apply Forall_insert; [done|].
    rewrite Forall_lookup in Hnamed.
    destruct (Hnamed r x0 Hr) as (name & Hn & ?). exists name. by rewrite Hc.
Qed.

Lemma reachable_heap_named s : reachable cfg s → heap_named cfg s.
Proof.
  apply reachable_invariant; [by apply Forall_nil|].
  apply micro_heap_named.
Qed.

Lemma micro_completed_are_done s s' :
  micro cfg s s' → completed_are_done s → completed_are_done s'.
Proof.
  unfold completed_are_done, completed.
  intros [s1 s2 Hh Hl|s1 s2 x Hh _ _ Hl|s1 s2 r x0 x Hr Hh _ Hd0 Hd Hl
          |s1 s2 r x0 x Hr Hh _ Hd Hl] Hinv r' (a & b & c & Hr'); rewrite Hh.
  - apply Hinv. exists a, b, c. by rewrite <- Hl.
  - destruct (Hinv r') as (x' & Hx' & ?); [exists a, b, c; by rewrite <- Hl|].
    exists x'. split; [|done]. by apply lookup_app_l_Some.
  - destruct (Hinv r') as (x' & Hx' & ?); [exists a, b, c; by rewrite <- Hl|].
    exists x'. split; [|done].
    rewrite list_lookup_insert_ne; [done|]. intros ->. congruence.
  - rewrite Hl in Hr'.
    destruct (decide (r = r')) as [<-|Hne].
    + exists x. split; [|done].
      apply list_lookup_insert_eq. by eapply lookup_lt_Some.
    + case_decide; [congruence|].
      destruct (Hinv r') as (x' & Hx' & ?); [by exists a, b, c|].
      exists x'. split; [|done]. by rewrite list_lookup_insert_ne.
Qed.

Lemma micro_done_are_indexed s s' :
  micro cfg s s' → done_are_indexed s → done_are_indexed s'.
Proof.
  unfold done_are_indexed.
  intros [s1 s2 Hh Hl|s1 s2 x Hh Hx _ Hl|s1 s2 r x0 x Hr Hh _ Hd0 Hd Hl
          |s1 s2 r x0 x Hr Hh _ Hd Hl] Hinv r' x'; rewrite Hh.
  - rewrite Hl. apply Hinv.
  - rewrite Hl. intros [?|[_ Hlast]]%lookup_app_Some Hdone; [by eapply Hinv|].
    apply list_lookup_singleton_Some in Hlast as [_ <-]. congruence.
  - rewrite Hl.
    intros [(<- & <- & _)|[_ ?]]%list_lookup_insert_Some Hdone;
      [congruence|by eapply Hinv].
  - rewrite Hl.
    intros [(<- & <- & _)|[_ ?]]%list_lookup_insert_Some Hdone.
    + by rewrite decide_True.
    + case_decide; [done|]. by eapply Hinv.
Qed.

(** C6, as the code has it. In every store reachable by nominations,
    reports, position picks, cancels and messages: every submission
    held by the completed structure is done, and every done
    submission has an entry of the completed structure under its own
    referer, position and candidate name, which holds a done
    submission (itself, unless a later completion under the same three
    keys took its place). *)
Theorem completed_and_done (events : list Event) :
  let s := run cfg events empty_store in
  (∀ r, completed s r → ∃ x, heap s !! r = Some x ∧ done x = true) ∧
  (∀ r x, heap s !! r = Some x → done x = true →
     ∃ r' x',
       lookup3 (referer x) (position x) (candidate x)
               (done_submissions_by_user s) = Some r' ∧
       heap s !! r' = Some x' ∧ done x' = true).
Proof.
  simpl.
  assert (completed_are_done (run cfg events empty_store)) as H1.
  { apply run_invariant; [apply micro_completed_are_done|].
    by intros r (a & b & c & ?). }
  assert (done_are_indexed (run cfg events empty_store)) as H2.
  { apply run_invariant; [apply micro_done_are_indexed|].
    by intros r x ?. }
  split; [exact H1|].
  intros r x Hr Hd. destruct (H2 r x Hr Hd) as [r' Hr'].
  destruct (H1 r') as (x' & ? & ?); [by eexists _, _, _|].
  by exists r', x'.
Qed.
End invariants.

(** ** Cancelling *)

Section cancelling.
Context `{PyLib}.
Variable cfg : Config.

Lemma get_submission_with_submitted c s token :
  get_submission (with_submitted c s) token = get_submission s token.
Proof. done. Qed.

(** C10. A cancel whose token is not in the token map ends in an
    [AttributeError], and a cancel whose submission's canonical name is
    not in the submitted set ends in a [KeyError] (so does the second
    of two cancels of one token); neither is caught, and the store is
    as it was. A position pick with an unknown token, by a user under
    the quota, logs an error, tells the user that something went wrong
    and returns. *)
Theorem cancel_raises_where_pick_reports (body : CancelBody) (pick : PickBody)
    (s : Store) :
  (submissions_by_token s !! token_of (cancel_value body) = None →
     cancel_submission body s = mkResult s [Ack] (Some AttributeError)) ∧
  (∀ r x name,
     get_submission s (Some (token_of (cancel_value body))) = Some (r, x) →
     candidate x = Some name →
     canonicalize_name name ∉ submitted_candidates s →
     cancel_submission body s = mkResult s [Ack] (Some KeyError)) ∧
  (∀ r x name,
     get_submission s (Some (token_of (cancel_value body))) = Some (r, x) →
     candidate x = Some name →
     canonicalize_name name ∈ submitted_candidates s →
     let s' := res_store (cancel_submission body s) in
     res_raised (cancel_submission body s) = None ∧
     cancel_submission body s' = mkResult s' [Ack] (Some KeyError)) ∧
  (submissions_by_token s !! token_of (pick_value pick) = None →
   completed_count s (pick_username pick) (pick_text pick) < CANDIDATE_LIMIT →
     res_raised (pick_position pick s) = None ∧
     res_effects (pick_position pick s) =
       [Ack; LogError (LogNoOpenSubmission (pick_username pick));
        PostMessage (pick_user_id pick) MsgOops]).
Proof.
  repeat split.
  - intros Hnone. by apply cancel_unknown, get_submission_None.
  - intros r x name. apply cancel_absent_name.
  - by rewrite (cancel_removes body s r x name).
  - rewrite (cancel_removes body s r x name) by done. simpl.
    apply (cancel_absent_name _ _ r x name); [done..|]. simpl. set_solver.
  - rewrite pick_unknown; [done..|]. by apply get_submission_None.
  - rewrite pick_unknown; [done..|]. by apply get_submission_None.
Qed.

(** C4. A pending submission of a reachable store (its token resolves,
    it is not done) is cancelled in one of two ways. When its canonical
    name is in the submitted set, the cancel returns normally, tells the
    user, and removes exactly that name. When it is not (the cancel of
    an earlier, already cancelled submission of the same canonical name
    took it out), the cancel raises [KeyError] and changes nothing. In
    both cases the canonical name is out of the submitted set
    afterwards, and the heap, the token map, the active-token map and
    the completed structure are as before: the submission is still not
    done, still found under its token, and a user whose active token it
    was still points to it. A nomination that follows, with a name of
    the same canonical form in a command that passes the checks made
    before the name is looked up (at most 256 characters, a URL that
    [urlparse] accepts, a non-empty name), is accepted. *)
Theorem cancel_frees_name (body : CancelBody) (command : SubmitCommand)
    (s : Store) (r : ref) (x : Submission) (name : str) :
  reachable cfg s →
  get_submission s (Some (token_of (cancel_value body))) = Some (r, x) →
  done x = false →
  candidate x = Some name →
  let res := cancel_submission body s in
  let s' := res_store res in
  (canonicalize_name name ∈ submitted_candidates s →
     res_raised res = None ∧
     PostMessage (cancel_user_id body) (MsgCanceled (Some name))
       ∈ res_effects res) ∧
  (canonicalize_name name ∉ submitted_candidates s →
     res_raised res = Some KeyError ∧ res_effects res = [Ack] ∧ s' = s) ∧
  submitted_candidates s' = (submitted_candidates s ∖ {[canonicalize_name name]}) ∧
  (canonicalize_name name ∉ submitted_candidates s') ∧
  heap s' = heap s ∧
  get_submission s' (Some (token_of (cancel_value body))) = Some (r, x) ∧
  (done <$> heap s' !! r) = Some false ∧
  submissions_by_token s' = submissions_by_token s ∧
  current_token_by_user_id s' = current_token_by_user_id s ∧
  done_submissions_by_user s' = done_submissions_by_user s ∧
  (length (cmd_text command) ≤ MAX_COMMAND_LENGTH →
   url_parses command →
   candidate_name_of command ≠ [] →
   canonicalize_name (candidate_name_of command) = canonicalize_name name →
     accepted (partybot_submit cfg command s')).
Proof.
  intros Hreach Hget Hdone Hname. cbv zeta.
  pose proof (get_submission_heap s _ r x Hget) as Hx.
  assert (¬ in_pool cfg (canonicalize_name name)) as Hpool.
  { pose proof (reachable_heap_named cfg s Hreach) as Hnamed.
    unfold heap_named in Hnamed. rewrite Forall_lookup in Hnamed.
    destruct (Hnamed r x Hx) as (name' & Hn' & _ & Hpool). congruence. }
  destruct (decide (canonicalize_name name ∈ submitted_candidates s))
    as [Hin|Hout].
  - rewrite (cancel_removes body s r x name) by done. simpl.
    split; [intros _; split; [done|set_solver]|]. split; [done|].
    split; [done|]. split; [set_solver|]. split; [done|]. split; [done|].
    split; [by rewrite Hx; simpl; rewrite Hdone|]. repeat split.
    intros Hlen Hurl Hne Hcanon. apply accepted_iff. rewrite Hcanon. simpl.
    repeat split; [done..|set_solver].
  - rewrite (cancel_absent_name body s r x name) by done. simpl.
    split; [done|]. split; [done|]. split; [set_solver|]. split; [done|].
    split; [done|]. split; [done|].
    split; [by rewrite Hx; simpl; rewrite Hdone|]. repeat split.
    intros Hlen Hurl Hne Hcanon. apply accepted_iff. rewrite Hcanon.
    repeat split; done.
Qed.

Lemma handle_keeps_submitted c e s :
  ¬ cancels c e s →
  c ∈ submitted_candidates s →
  c ∈ submitted_candidates (res_store (handle cfg e s)).
Proof.
  intros Hno Hin. destruct e as [command|command|body|body|body]; simpl.
  - destruct (submit_store cfg command s) as [->|[_ ->]]; [done|].
    simpl. set_solver.
  - unfold partybot_report. by destruct (od_getitem_default _ _ _).
  - destruct (pick_store body s) as [->|[->|(r & x & _ & ->)]]; done.
  - simpl in Hno. unfold cancel_submission.
    fold (token_of (cancel_value body)).
    destruct (get_submission _ _) as [[r x]|] eqn:Hget; [|done].
    destruct (candidate x) as [name|] eqn:Hname; [|done].
    case_decide; [|done]. simpl.
    apply elem_of_difference. split; [done|].
    rewrite elem_of_singleton. intros ->. apply Hno. by exists r, x, name.
  - destruct (message_store body s)
      as [->|(u & r & x & _ & _ & _ & _ & Hs)]; [done|].
    cbv zeta in Hs. destruct (truthy (position x)); by rewrite Hs.
Qed.

Lemma run_keeps_submitted c events s :
  never_cancels cfg c events s →
  c ∈ submitted_candidates s →
  c ∈ submitted_candidates (run cfg events s).
Proof.
  revert s. induction events as [|e events IH]; intros s; [done|].
  intros [Hno Hrest] Hin. rewrite run_cons.
  apply IH; [done|]. by apply handle_keeps_submitted.
Qed.

(** C1, as the code has it. If a nomination is accepted, and no cancel
    addressed to a submission of the same canonical name is handled
    afterwards, then a later nomination whose candidate name has the
    same canonical form, in a command that passes the checks made
    before the name is looked up (at most 256 characters, a URL that
    [urlparse] accepts, a non-empty name), is rejected with the
    duplicate message and leaves the whole store as it was. *)
Theorem duplicate_nomination_rejected (first second : SubmitCommand)
    (events : list Event) (s0 : Store) :
  accepted (partybot_submit cfg first s0) →
  canonicalize_name (candidate_name_of second)
    = canonicalize_name (candidate_name_of first) →
  length (cmd_text second) ≤ MAX_COMMAND_LENGTH →
  url_parses second →
  candidate_name_of second ≠ [] →
  let s1 := res_store (partybot_submit cfg first s0) in
  never_cancels cfg (canonicalize_name (candidate_name_of first)) events s1 →
  let s2 := run cfg events s1 in
  let res := partybot_submit cfg second s2 in
  Respond (MsgDuplicate (candidate_name_of second)) ∈ res_effects res ∧
  ¬ accepted res ∧
  res_raised res = None ∧
  res_store res = s2.
Proof.
  intros Hacc Hcanon Hlen Hurl Hne s1 Hkept s2 res.
  assert (canonicalize_name (candidate_name_of first)
            ∈ submitted_candidates s2) as Hin.
  { apply run_keeps_submitted; [done|]. by apply accepted_submitted. }
  assert (¬ in_pool cfg (canonicalize_name (candidate_name_of second))) as Hpool.
  { rewrite Hcanon. by apply accepted_iff in Hacc as (_ & _ & _ & ? & _). }
  assert (¬ accepted res) as Hrej.
  { subst res. rewrite accepted_iff, Hcanon. tauto. }
  split; [|split; [done|]]; subst res;
    rewrite submit_duplicate by (done || by rewrite Hcanon); simpl.
  - set_solver.
  - done.
Qed.
End cancelling.

(** ** Messages *)

Section messages.
Context `{PyLib}.
Variable cfg : Config.

Lemma message_no_user (body : MessageBody) s :
  truthy (msg_user body) = false →
  extra_info_message body s = mkResult s [] None.
Proof.
  unfold extra_info_message. by destruct (msg_user body) as [[|c u]|].
Qed.

Lemma message_unrelated (body : MessageBody) s user_id :
  msg_user body = Some user_id → user_id ≠ [] →
  get_submission s (current_token_by_user_id s !! user_id) = None →
  extra_info_message body s =
    mkResult s [LogInfo (LogUnrelated user_id (msg_text body))] None.
Proof.
  intros Hu Hne Hget. unfold extra_info_message. rewrite Hu.
  destruct user_id as [|c u]; [done|]. by rewrite Hget.
Qed.

Lemma message_done (body : MessageBody) s user_id r x :
  msg_user body = Some user_id → user_id ≠ [] →
  get_submission s (current_token_by_user_id s !! user_id) = Some (r, x) →
  done x = true →
  extra_info_message body s = mkResult s [] None.
Proof.
  intros Hu Hne Hget Hdone. unfold extra_info_message. rewrite Hu.
  destruct user_id as [|c u]; [done|]. by rewrite Hget, Hdone.
Qed.

Lemma message_saved (body : MessageBody) s user_id r x :
  msg_user body = Some user_id → user_id ≠ [] →
  get_submission s (current_token_by_user_id s !! user_id) = Some (r, x) →
  done x = false →
  extra_info_message body s =
    let s1 := with_heap (<[r := with_info body x]> (heap s)) s in
    let said :=
      match msg_file body with
      | Some f => [UrlRetrieve (url_private_download f)]
      | None => []
      end ++ [PostMessage user_id (info_saved body x)] in
    if truthy (position x) then
      let fin := finish_submission user_id r (with_info body x) s1 in
      mkResult fin.1 (said ++ fin.2) None
    else mkResult s1 said None.
Proof.
  intros Hu Hne Hget Hdone. unfold extra_info_message. rewrite Hu.
  destruct user_id as [|c u]; [done|]. rewrite Hget, Hdone.
  unfold info_saved, with_info.
  destruct (msg_file body) as [f|]; simpl;
    destruct (truthy (position x)); done.
Qed.

Lemma finish_heap user_id r x s :
  r < length (heap s) →
  heap (finish_submission user_id r x s).1 !! r = Some (set_done true x).
Proof. intros Hr. simpl. by apply list_lookup_insert_eq. Qed.

Lemma finish_wrote user_id r x s :
  existsb is_write (finish_submission user_id r x s).2 = true.
Proof. done. Qed.

(** What a message event does to a pending submission. *)
Lemma message_on_pending (body : MessageBody) s user_id r x :
  msg_user body = Some user_id → user_id ≠ [] →
  get_submission s (current_token_by_user_id s !! user_id) = Some (r, x) →
  done x = false →
  let res := extra_info_message body s in
  res_raised res = None ∧
  PostMessage user_id (info_saved body x) ∈ res_effects res ∧
  (∃ x', heap (res_store res) !! r = Some x' ∧
         extra_info x' = Some (msg_text body) ∧
         cv_filename x' = match msg_file body with
                          | Some f => Some (retrieved f)
                          | None => cv_filename x
                          end ∧
         position x' = position x ∧
         (done x' = true ↔ position_assigned x)) ∧
  (wrote res ↔ position_assigned x).
Proof.
  intros Hu Hne Hget Hdone. simpl.
  rewrite (message_saved body s user_id r x) by done. cbv zeta.
  pose proof (get_submission_heap s _ r x Hget) as Hr.
  apply lookup_lt_Some in Hr.
  unfold position_assigned, wrote.
  destruct (truthy (position x)) eqn:Hpos.
  - repeat split; try done.
    + simpl. rewrite !elem_of_app, !elem_of_cons. tauto.
    + exists (set_done true (with_info body x)). split.
      * apply finish_heap. simpl. by rewrite length_insert.
      * unfold with_info. by destruct (msg_file body).
    + intros _. simpl. rewrite existsb_app. simpl.
      by rewrite orb_true_r.
  - repeat split; try done.
    + simpl. rewrite elem_of_app, elem_of_cons. tauto.
    + exists (with_info body x). split.
      * simpl. by apply list_lookup_insert_eq.
      * unfold with_info. destruct (msg_file body); simpl; by rewrite Hdone.
    + simpl. rewrite existsb_app. simpl.
      destruct (msg_file body); simpl; by intros.
Qed.
End messages.

Section scenario.
Context `{PyLib}.
Variable cfg : Config.

(** An accepted nomination can be found under its token, and is the
    active submission of its user. *)
Lemma accepted_lookup (command : SubmitCommand) s :
  accepted (partybot_submit cfg command s) →
  let s1 := res_store (partybot_submit cfg command s) in
  let x := mkSubmission (Some (cmd_user_name command))
             (Some (candidate_name_of command))
             (Some (candidate_url_of command)) None
             (Some (cmd_posted_ts command)) None None false in
  current_token_by_user_id s1 !! cmd_user_id command = Some (cmd_uuid command) ∧
  get_submission s1 (Some (cmd_uuid command)) = Some (length (heap s), x) ∧
  done_submissions_by_user s1 = done_submissions_by_user s ∧
  length (heap s1) = S (length (heap s)).
Proof.
  intros Hacc. simpl.
  destruct (submit_store cfg command s) as [Heq|[_ ->]].
  - apply accepted_iff in Hacc as (Hlen & Hurl & Hname & Hknown & Hdup).
    rewrite submit_fresh in Heq by done. simpl in Heq.
    apply (f_equal (λ s, length (heap s))) in Heq. simpl in Heq.
    rewrite length_app in Heq. simpl in Heq. lia.
  - simpl. repeat split.
    + apply lookup_insert_eq.
    + unfold get_submission. simpl. rewrite lookup_insert_eq. simpl.
      by rewrite list_lookup_middle.
    + rewrite length_app. simpl. lia.
Qed.

(** Nominate, send a text, then pick a position. *)
Lemma nominate_message_pick (command : SubmitCommand) (msg : MessageBody)
    (pick : PickBody) (s0 : Store) :
  accepted (partybot_submit cfg command s0) →
  msg_user msg = Some (cmd_user_id command) →
  cmd_user_id command ≠ [] →
  token_of (pick_value pick) = cmd_uuid command →
  completed_count s0 (pick_username pick) (pick_text pick) < CANDIDATE_LIMIT →
  let s1 := res_store (partybot_submit cfg command s0) in
  let s2 := res_store (extra_info_message msg s1) in
  let s3 := res_store (pick_position pick s2) in
  let r := length (heap s0) in
  (∃ x, heap s2 !! r = Some x ∧
        extra_info x = Some (msg_text msg) ∧
        position x = None ∧ done x = false) ∧
  ¬ wrote (extra_info_message msg s1) ∧
  (∃ x, heap s3 !! r = Some x ∧
        extra_info x = Some (msg_text msg) ∧
        position x = Some (pick_text pick) ∧ done x = true) ∧
  lookup3 (Some (cmd_user_name command)) (Some (pick_text pick))
          (Some (candidate_name_of command))
          (done_submissions_by_user s3) = Some r ∧
  wrote (pick_position pick s2).
Proof.
  intros Hacc Hu Hne Htok Hq.
  destruct (accepted_lookup command s0 Hacc) as (Hcur & Hget & Hdone & Hlen).
  cbv zeta in *.
  set (s1 := res_store (partybot_submit cfg command s0)) in *.
  set (x0 := mkSubmission _ _ _ _ _ _ _ _) in Hget.
  set (r := length (heap s0)) in *.
  assert (get_submission s1 (current_token_by_user_id s1 !! cmd_user_id command)
          = Some (r, x0)) as Hget1 by (by rewrite Hcur).
  assert (r < length (heap s1)) as Hr by lia.
  rewrite (message_saved msg s1 _ r x0 Hu Hne Hget1) by done.
  cbv zeta. change (truthy (position x0)) with false. cbv iota.
  set (x1 := with_info msg x0).
  set (s2 := with_heap (<[r := x1]> (heap s1)) s1).
  assert (heap s2 !! r = Some x1) as Hx1
    by (by apply list_lookup_insert_eq).
  assert (get_submission s2 (Some (token_of (pick_value pick))) = Some (r, x1))
    as Hget2.
  { rewrite Htok. unfold get_submission in *. simpl in *.
    destruct (submissions_by_token s1 !! cmd_uuid command) as [r'|]; [|done].
    simpl in *. destruct (heap s1 !! r') as [x'|]; [|done].
    simpl in *. injection Hget as -> _. simpl.
    fold x1. by rewrite Hx1. }
  assert (completed_count s2 (pick_username pick) (pick_text pick)
            < CANDIDATE_LIMIT) as Hq2.
  { unfold completed_count in *. simpl. by rewrite Hdone. }
  cbn [res_store].
  rewrite (pick_completes pick s2 r x1 Hq2 Hget2). cbv zeta.
  cbn [res_store res_effects].
  split; [|split; [|split; [|split]]].
  - exists x1. split; [done|]. unfold x1, with_info.
    by destruct (msg_file msg).
  - unfold wrote. simpl. rewrite existsb_app. simpl.
    by destruct (msg_file msg).
  - eexists. split.
    + apply finish_heap. simpl. by rewrite length_insert.
    + unfold x1, with_info. by destruct (msg_file msg).
  - unfold finish_submission. simpl. rewrite lookup3_setitem3.
    rewrite decide_True; [done|].
    unfold x1, with_info. by destruct (msg_file msg).
  - done.
Qed.

(** C7. A message event is ignored (the store is untouched and nothing
    is sent) when it has no user, when its user has no active submission
    (no active token, or a token that resolves to nothing), or when the
    active submission is done. Otherwise its
    text is stored as [extra_info], the path of a shared file as
    [cv_filename], the user is acknowledged, and the submission is
    completed (marked done, the leads file rewritten) exactly when a
    position is already assigned. After an accepted nomination, a text
    message of the same user leaves the submission not done, with the
    text stored; the position pick that follows completes it with both
    the text and the position. *)
Theorem message_captures_extra_info (body : MessageBody) (s : Store) :
  let res := extra_info_message body s in
  (truthy (msg_user body) = false →
     res_store res = s ∧ silent res ∧ res_raised res = None) ∧
  (∀ user_id,
     msg_user body = Some user_id →
     get_submission s (current_token_by_user_id s !! user_id) = None →
     res_store res = s ∧ silent res ∧ res_raised res = None) ∧
  (∀ user_id r x,
     msg_user body = Some user_id →
     get_submission s (current_token_by_user_id s !! user_id) = Some (r, x) →
     done x = true →
     res_store res = s ∧ silent res ∧ res_raised res = None) ∧
  (∀ user_id r x,
     msg_user body = Some user_id → user_id ≠ [] →
     get_submission s (current_token_by_user_id s !! user_id) = Some (r, x) →
     done x = false →
     res_raised res = None ∧
     PostMessage user_id (info_saved body x) ∈ res_effects res ∧
     (∃ x', heap (res_store res) !! r = Some x' ∧
            extra_info x' = Some (msg_text body) ∧
            cv_filename x' = match msg_file body with
                             | Some f => Some (retrieved f)
                             | None => cv_filename x
                             end ∧
            position x' = position x ∧
            (done x' = true ↔ position_assigned x)) ∧
     (wrote res ↔ position_assigned x)) ∧
  (∀ (command : SubmitCommand) (pick : PickBody),
     accepted (partybot_submit cfg command s) →
     msg_user body = Some (cmd_user_id command) →
     cmd_user_id command ≠ [] →
     token_of (pick_value pick) = cmd_uuid command →
     completed_count s (pick_username pick) (pick_text pick) < CANDIDATE_LIMIT →
     let s1 := res_store (partybot_submit cfg command s) in
     let s2 := res_store (extra_info_message body s1) in
     let s3 := res_store (pick_position pick s2) in
     let r := length (heap s) in
     (∃ x, heap s2 !! r = Some x ∧
           extra_info x = Some (msg_text body) ∧
           position x = None ∧ done x = false) ∧
     ¬ wrote (extra_info_message body s1) ∧
     (∃ x, heap s3 !! r = Some x ∧
           extra_info x = Some (msg_text body) ∧
           position x = Some (pick_text pick) ∧ done x = true) ∧
     lookup3 (Some (cmd_user_name command)) (Some (pick_text pick))
             (Some (candidate_name_of command))
             (done_submissions_by_user s3) = Some r ∧
     wrote (pick_position pick s2)).
Proof.
  simpl. split; [|split; [|split; [|split]]].
  - intros Hu. by rewrite message_no_user.
  - intros user_id Hu Hget. destruct user_id as [|c u].
    + rewrite message_no_user; [done|]. by rewrite Hu.
    + by rewrite (message_unrelated body s (c :: u)).
  - intros user_id r x Hu Hget Hdone. destruct user_id as [|c u].
    + rewrite message_no_user; [done|]. by rewrite Hu.
    + by rewrite (message_done body s (c :: u) r x).
  - intros user_id r x Hu Hne Hget Hdone.
    by apply message_on_pending.
  - intros command pick Hacc Hu Hne Htok Hq.
    by apply nominate_message_pick.
Qed.
End scenario.

(** ** Report *)

Section odict_append.
Context {K V : Type} `{EqDecision K}.

Lemma od_set_absent (k : K) (v : V) (d : odict K V) :
  od_get k d = None → od_set k v d = d ++ [(k, v)].
Proof.
  induction d as [|[k0 v0] d IH]; simpl; [done|].
  destruct (decide (k = k0)); [done|]. intros Hd. by rewrite IH.
Qed.
End odict_append.

Section report.
Implicit Types (command : ReportCommand) (s : Store).

Lemma report_eq command s :
  partybot_report command s =
    mkResult
      (with_done
         (od_getitem_default [] (Some (rep_user_name command))
                             (done_submissions_by_user s)).2 s)
      [Ack;
       PostMessage (rep_user_id command)
         (MsgReport
            (report_groups s
               (default [] (od_get (Some (rep_user_name command))
                                   (done_submissions_by_user s)))))]
      None.
Proof.
  unfold partybot_report.
  pose proof (od_getitem_default_fst (V := by_position_t) []
                (Some (rep_user_name command)) (done_submissions_by_user s)) as Hf.
  destruct (od_getitem_default _ _ _) as [by_position d].
  simpl in Hf. by subst.
Qed.

Lemma leads_getitem_default a s :
  leads (with_done (od_getitem_default [] a (done_submissions_by_user s)).2 s)
  = leads s.
Proof.
  rewrite od_getitem_default_snd.
  destruct (od_get a (done_submissions_by_user s)) eqn:Ha;
    [by rewrite with_done_id|].
  unfold leads. simpl. rewrite (od_set_absent _ _ _ Ha).
  unfold od_values. rewrite fmap_app, bind_app. simpl.
  by rewrite app_nil_r.
Qed.

(** C8, as the code has it. The report returns normally and sends one
    message, the candidate names of the submitter's completed
    submissions grouped by position. It leaves the heap, the submitted
    set, the token map and the active-token map as they were. The
    completed structure is as it was when the submitter has an entry in
    it; otherwise it gains an entry that maps the submitter to an empty
    dictionary. In both cases the completed submissions, and the rows
    the leads file would hold, are the same. For a submitter without an
    entry the message is the empty structure, and for a submitter whose
    positions hold no submission every group of the message is empty. *)
Theorem report_effects command s :
  let res := partybot_report command s in
  let s' := res_store res in
  let user := Some (rep_user_name command) in
  let by_position := default [] (od_get user (done_submissions_by_user s)) in
  res_raised res = None ∧
  res_effects res =
    [Ack; PostMessage (rep_user_id command)
            (MsgReport (report_groups s by_position))] ∧
  heap s' = heap s ∧
  submitted_candidates s' = submitted_candidates s ∧
  submissions_by_token s' = submissions_by_token s ∧
  current_token_by_user_id s' = current_token_by_user_id s ∧
  done_submissions_by_user s' =
    match od_get user (done_submissions_by_user s) with
    | Some _ => done_submissions_by_user s
    | None => done_submissions_by_user s ++ [(user, [])]
    end ∧
  (∀ a b c, lookup3 a b c (done_submissions_by_user s')
            = lookup3 a b c (done_submissions_by_user s)) ∧
  leads s' = leads s ∧
  (od_get user (done_submissions_by_user s) = None →
     report_groups s by_position = []) ∧
  ((∀ position submissions_by_name,
      (position, submissions_by_name) ∈ by_position →
      submissions_by_name = []) →
   ∀ position names,
     (position, names) ∈ report_groups s by_position → names = []).
Proof.
  simpl. rewrite report_eq. simpl.
  split; [done|]. split; [done|]. split; [done|]. split; [done|].
  split; [done|]. split; [done|].
  split; [|split; [|split; [|split]]].
  - rewrite od_getitem_default_snd.
    destruct (od_get _ _) eqn:Ha; [done|]. by apply od_set_absent.
  - intros a b c. apply lookup3_getitem_default.
  - apply leads_getitem_default.
  - by intros ->.
  - intros Hempty position names Hin. unfold report_groups in Hin.
    apply list_elem_of_fmap in Hin as ([p by_name] & [= -> ->] & Hin).
    by rewrite (Hempty _ _ Hin).
Qed.
End report.

(** ** Loading the registries *)

Section startup_facts.
Context `{PyLib}.

(** C9, as the code has it. When both configuration files can be
    opened, a YAML error while parsing one of them is logged as a
    warning and start-up goes on, with an empty mapping of known
    candidates or an empty list of open positions for the file that
    failed to parse. *)
Theorem yaml_error_degrades (known positions : Load) :
  let st := startup known positions in
  (known = YamlFails → positions ≠ OpenFails →
     known_candidates (st_config st) = ∅ ∧
     LogWarn LogYamlError ∈ st_effects st ∧
     st_raised st = None) ∧
  (positions = YamlFails → known ≠ OpenFails →
     open_positions (st_config st) = [] ∧
     LogWarn LogYamlError ∈ st_effects st ∧
     st_raised st = None).
Proof.
  simpl. split.
  - intros -> Hp. destruct positions; [done|..]; simpl;
      repeat split; set_solver.
  - intros -> Hk. destruct known; [done|..]; simpl;
      repeat split; set_solver.
Qed.
End startup_facts.

(** ** Concrete runs *)

Module Checks.
Import Ascii Examples.
#[local] Existing Instance lib.

Lemma od_get_values {K V} `{EqDecision K} (k : K) (v : V) (d : odict K V) :
  od_get k d = Some v → v ∈ od_values d.
Proof.
  unfold od_values. induction d as [|[k0 v0] d IH]; simpl; [done|].
  destruct (decide (k = k0)).
  - intros [= ->]. apply list_elem_of_here.
  - intros Hd. apply list_elem_of_further. by apply IH.
Qed.

Lemma completed_held s r : completed s r → r ∈ held s.
Proof.
  intros (a & b & c & Hl). unfold lookup3, lookup2 in Hl. unfold held.
  destruct (od_get a _) as [by_position|] eqn:Ha; simpl in Hl; [|done].
  destruct (od_get b by_position) as [by_name|] eqn:Hb; simpl in Hl; [|done].
  apply list_elem_of_bind. exists by_position. split; [|by eapply od_get_values].
  apply list_elem_of_bind. exists by_name. split; by eapply od_get_values.
Qed.

(** C2: the code at the failing input. Jane Doe is nominated and
    completed for Engineer; a second pick with the same token, for
    Designer, returns normally, tells the user the submission is done,
    rewrites the leads file, and leaves the one submission in the
    completed structure under both positions, so that the file holds it
    twice. *)
Theorem second_pick_completes_again :
  let again := pick_position (pick "t1" "Designer") completed_store in
  (done <$> heap completed_store !! 0) = Some true ∧
  held completed_store = [0] ∧
  res_raised again = None ∧
  PostMessage U1 (MsgDone (Some Jane)) ∈ res_effects again ∧
  wrote again ∧
  (done <$> heap (res_store again) !! 0) = Some true ∧
  lookup3 (Some alice) (Some Engineer) (Some Jane)
          (done_submissions_by_user (res_store again)) = Some 0 ∧
  lookup3 (Some alice) (Some Designer) (Some Jane)
          (done_submissions_by_user (res_store again)) = Some 0 ∧
  held (res_store again) = [0; 0] ∧
  length (leads (res_store again)) = 2.
Proof.
  cbv zeta. repeat split; try (vm_compute; reflexivity).
  apply list_elem_of_In. vm_compute. tauto.
Qed.

(** C1 fails as stated. Jane Doe was nominated and cancelled under
    [t0]. She is nominated again under [t1] and accepted. A second
    cancel of [t0], which is not the token of the accepted nomination,
    returns normally and takes her canonical name out of the submitted
    set, although the accepted submission is still pending under [t1].
    The next nomination of the same name is accepted, not rejected. *)
Lemma stale_cancel_readmits_duplicate :
  let first := nominate "t1" "Jane Doe" in
  let second := nominate "t2" "Jane Doe" in
  let s1 := res_store (partybot_submit cfg0 first cancelled_store) in
  let s2 := run cfg0 [ECancel (cancel "t0")] s1 in
  accepted (partybot_submit cfg0 first cancelled_store) ∧
  canonicalize_name (candidate_name_of second)
    = canonicalize_name (candidate_name_of first) ∧
  token_of (cancel_value (cancel "t0")) ≠ cmd_uuid first ∧
  res_raised (cancel_submission (cancel "t0") s1) = None ∧
  get_submission s2 (Some (cmd_uuid first)) = Some (1, jane_pending) ∧
  accepted (partybot_submit cfg0 second s2) ∧
  (Respond (MsgDuplicate (candidate_name_of second))
     ∉ res_effects (partybot_submit cfg0 second s2)) ∧
  res_store (partybot_submit cfg0 second s2) ≠ s2.
Proof.
  cbv zeta. repeat split; try (vm_compute; reflexivity).
  - vm_compute. discriminate.
  - rewrite list_elem_of_In. vm_compute. intuition discriminate.
  - intros Heq. apply (f_equal (λ s, length (heap s))) in Heq.
    vm_compute in Heq. discriminate.
Qed.

(** C4 fails as stated, in two ways. Jane Doe is nominated and cancelled
    under [t0] and nominated again under [t1]; a second press of the
    cancel button of [t0] takes her name out of the submitted set. The
    submission under [t1] is accepted, not done and was never cancelled,
    and its cancel raises [KeyError]: nothing is removed and the user is
    told nothing. And after the cancel of a pending submission that
    does remove the name, a nomination of the same name in a command of
    more than 256 characters is turned down. *)
Lemma pending_cancel_raises :
  reachable cfg0 stale_store ∧
  accepted (partybot_submit cfg0 (nominate "t1" "Jane Doe") cancelled_store) ∧
  get_submission stale_store (Some (token_of (cancel_value (cancel "t1"))))
    = Some (1, jane_pending) ∧
  done jane_pending = false ∧
  cancel_submission (cancel "t1") stale_store
    = mkResult stale_store [Ack] (Some KeyError) ∧
  res_raised (cancel_submission (cancel "t1") pending_store) = None ∧
  canonicalize_name (candidate_name_of long_renomination)
    = canonicalize_name Jane ∧
  partybot_submit cfg0 long_renomination
    (res_store (cancel_submission (cancel "t1") pending_store))
    = mkResult (res_store (cancel_submission (cancel "t1") pending_store))
               [Ack; Respond MsgTooLong] None.
Proof.
  split; [by eexists|].
  repeat split; vm_compute; reflexivity.
Qed.

(** C6 fails as stated. Jane Doe is nominated, cancelled and nominated
    again; the second nomination is completed for Engineer, then the
    first. The second submission is done, and the completed structure
    holds the first in its place. *)
Lemma overwritten_done_submission :
  (done <$> heap overwritten_store !! 1) = Some true ∧
  held overwritten_store = [0] ∧
  ¬ completed overwritten_store 1.
Proof.
  split; [vm_compute; reflexivity|]. split; [vm_compute; reflexivity|].
  intros Hin%completed_held. vm_compute in Hin.
  apply list_elem_of_In in Hin. simpl in Hin. intuition discriminate.
Qed.

(** C8 fails as stated. A report for a submitter who has no entry in
    the completed structure creates one. *)
Lemma report_creates_entry :
  done_submissions_by_user empty_store = [] ∧
  done_submissions_by_user (res_store (partybot_report report empty_store))
    = [(Some alice, [])] ∧
  res_store (partybot_report report empty_store) ≠ empty_store.
Proof.
  split; [done|]. split; [done|].
  intros Heq. apply (f_equal done_submissions_by_user) in Heq.
  discriminate.
Qed.

(** C9 fails as stated. When a configuration file cannot be opened,
    start-up ends in the error, without a warning. *)
Lemma unreadable_file_aborts :
  startup OpenFails (Loaded [Engineer])
    = mkStartup (mkConfig ∅ []) [] (Some OSError) ∧
  st_raised (startup (Loaded [Jane]) OpenFails) = Some OSError ∧
  st_effects (startup (Loaded [Jane]) OpenFails) = [].
Proof. repeat split. Qed.

(** ** The theorems at concrete inputs *)


Lemma user_errors_leave_store_witness :
  Respond MsgTooLong
    ∈ res_effects (partybot_submit cfg0 too_long pending_store) ∧
  res_store (partybot_submit cfg0 too_long pending_store) = pending_store ∧
  res_store (partybot_submit cfg0 nameless pending_store) = pending_store ∧
  res_store (partybot_submit cfg1 (nominate "t2" "Zed") pending_store)
    = pending_store ∧
  res_store (partybot_submit cfg0 (nominate "t2" "jane doe") pending_store)
    = pending_store ∧
  res_store (pick_position (pick "j" "Engineer") quota_store) = quota_store.
Proof.
  pose proof (user_errors_leave_store cfg0 too_long (pick "j" "Engineer")
                pending_store) as (Hlong & _ & _ & _ & _ & Hlong' & _).
  pose proof (user_errors_leave_store cfg0 nameless (pick "j" "Engineer")
                pending_store) as (_ & Hempty & _ & _ & _ & Hempty' & _).
  pose proof (user_errors_leave_store cfg1 (nominate "t2" "Zed")
                (pick "j" "Engineer") pending_store)
    as (_ & _ & Hknown & _ & _ & Hknown' & _).
  pose proof (user_errors_leave_store cfg0 (nominate "t2" "jane doe")
                (pick "j" "Engineer") pending_store)
    as (_ & _ & _ & Hdup & _ & Hdup' & _).
  pose proof (user_errors_leave_store cfg0 (nominate "t2" "jane doe")
                (pick "j" "Engineer") quota_store)
    as (_ & _ & _ & _ & Hquota & _ & Hquota').
  cbv zeta in *.
  assert (Respond MsgTooLong
            ∈ res_effects (partybot_submit cfg0 too_long pending_store)) as H1
    by (apply Hlong; vm_compute; lia).
  assert (Respond MsgEmptyName
            ∈ res_effects (partybot_submit cfg0 nameless pending_store)) as H2.
  { apply Hempty; [vm_compute; lia|by eexists|vm_compute; reflexivity]. }
  assert (Respond (MsgKnown (candidate_name_of (nominate "t2" "Zed")))
            ∈ res_effects (partybot_submit cfg1 (nominate "t2" "Zed")
                             pending_store)) as H3.
  { apply Hknown; [vm_compute; lia|by eexists|vm_compute; discriminate|].
    exists (py "Zed"), (py "zed"). split; vm_compute; reflexivity. }
  assert (Respond (MsgDuplicate (candidate_name_of (nominate "t2" "jane doe")))
            ∈ res_effects (partybot_submit cfg0 (nominate "t2" "jane doe")
                             pending_store)) as H4.
  { apply Hdup; [vm_compute; lia|by eexists|vm_compute; discriminate| |].
    - intros (k & v & Hk & _). vm_compute in Hk. discriminate.
    - apply (bool_decide_unpack _). vm_compute. exact I. }
  assert (PostMessage (pick_user_id (pick "j" "Engineer"))
                      (MsgLimit (pick_text (pick "j" "Engineer")))
            ∈ res_effects (pick_position (pick "j" "Engineer") quota_store)) as H5
    by (apply Hquota; vm_compute; lia).
  split; [exact H1|].
  split; [exact (proj1 (Hlong' MsgTooLong I H1))|].
  split; [exact (proj1 (Hempty' MsgEmptyName I H2))|].
  split; [exact (proj1 (Hknown' (MsgKnown _) I H3))|].
  split; [exact (proj1 (Hdup' (MsgDuplicate _) I H4))|].
  exact (proj1 (Hquota' _ _ H5)).
Defined.

Lemma cancel_raises_where_pick_reports_witness :
  cancel_submission (cancel "zz") pending_store
    = mkResult pending_store [Ack] (Some AttributeError) ∧
  cancel_submission (cancel "t0") cancelled_store
    = mkResult cancelled_store [Ack] (Some KeyError) ∧
  res_raised (cancel_submission (cancel "t1") pending_store) = None ∧
  res_raised
    (cancel_submission (cancel "t1")
       (res_store (cancel_submission (cancel "t1") pending_store)))
    = Some KeyError ∧
  res_effects (pick_position (pick "zz" "Engineer") pending_store)
    = [Ack; LogError (LogNoOpenSubmission alice); PostMessage U1 MsgOops].
Proof.
  pose proof (cancel_raises_where_pick_reports (cancel "zz")
                (pick "zz" "Engineer") pending_store) as (Hattr & _ & _ & Hpick).
  pose proof (cancel_raises_where_pick_reports (cancel "t0")
                (pick "zz" "Engineer") cancelled_store) as (_ & Hkey & _).
  pose proof (cancel_raises_where_pick_reports (cancel "t1")
                (pick "zz" "Engineer") pending_store) as (_ & _ & Htwice & _).
  split; [apply Hattr; vm_compute; reflexivity|].
  split.
  { apply (Hkey 0 jane_pending Jane); [vm_compute; reflexivity..|].
    intros Hin. apply (bool_decide_pack _) in Hin. vm_compute in Hin.
    exact Hin. }
  destruct (Htwice 0 jane_pending Jane) as [Hfirst Hsecond];
    [vm_compute; reflexivity..| |].
  { apply (bool_decide_unpack _). vm_compute. exact I. }
  split; [exact Hfirst|]. split; [by rewrite Hsecond|].
  apply Hpick; [vm_compute; reflexivity|vm_compute; lia].
Defined.

Lemma cancel_frees_name_witness :
  reachable cfg0 pending_store ∧
  get_submission pending_store (Some (token_of (cancel_value (cancel "t1"))))
    = Some (0, jane_pending) ∧
  canonicalize_name Jane ∈ submitted_candidates pending_store ∧
  res_raised (cancel_submission (cancel "t1") pending_store) = None ∧
  (canonicalize_name Jane
     ∉ submitted_candidates
         (res_store (cancel_submission (cancel "t1") pending_store))) ∧
  get_submission (res_store (cancel_submission (cancel "t1") pending_store))
                 (Some (py "t1")) = Some (0, jane_pending) ∧
  accepted
    (partybot_submit cfg0 (nominate "t2" "jane doe")
       (res_store (cancel_submission (cancel "t1") pending_store))).
Proof.
  assert (reachable cfg0 pending_store) as Hreach by (by eexists).
  assert (get_submission pending_store
            (Some (token_of (cancel_value (cancel "t1"))))
          = Some (0, jane_pending)) as Hget by (vm_compute; reflexivity).
  assert (canonicalize_name Jane ∈ submitted_candidates pending_store) as Hin
    by (apply (bool_decide_unpack _); vm_compute; exact I).
  destruct (cancel_frees_name cfg0 (cancel "t1") (nominate "t2" "jane doe")
              pending_store 0 jane_pending Jane Hreach Hget eq_refl eq_refl)
    as (Hnormal & _ & _ & Hout & _ & Hget' & _ & _ & _ & _ & Hacc).
  destruct (Hnormal Hin) as [Hraised _].
  split; [exact Hreach|]. split; [exact Hget|]. split; [exact Hin|].
  split; [exact Hraised|]. split; [exact Hout|]. split; [exact Hget'|].
  apply Hacc; [vm_compute; lia|by eexists|vm_compute; discriminate
              |vm_compute; reflexivity].
Defined.

Lemma duplicate_nomination_rejected_witness :
  accepted (partybot_submit cfg0 (nominate "t1" "Jane Doe") empty_store) ∧
  Respond (MsgDuplicate (py "jane doe"))
    ∈ res_effects
        (partybot_submit cfg0 (nominate "t3" "jane doe")
           (run cfg0 [ESubmit (nominate "t2" "Bob"); ECancel (cancel "t2");
                      EPick (pick "t1" "Engineer")]
                pending_store)).
Proof.
  assert (accepted (partybot_submit cfg0 (nominate "t1" "Jane Doe") empty_store))
    as Hacc by (vm_compute; reflexivity).
  split; [exact Hacc|].
  destruct (duplicate_nomination_rejected cfg0 (nominate "t1" "Jane Doe")
              (nominate "t3" "jane doe")
              [ESubmit (nominate "t2" "Bob"); ECancel (cancel "t2");
               EPick (pick "t1" "Engineer")]
              empty_store) as (Hdup & _);
    [exact Hacc|vm_compute; reflexivity|vm_compute; lia|by eexists
    |vm_compute; discriminate| |exact Hdup].
  simpl. split; [tauto|]. split; [|split; [tauto|exact I]].
  intros (r & x & name & Hget & Hname & Hcanon).
  vm_compute in Hget. injection Hget as <- <-.
  injection Hname as <-. vm_compute in Hcanon. discriminate.
Defined.

Lemma message_captures_extra_info_witness :
  (extra_info <$> heap (res_store (extra_info_message (say "hello") pending_store))
                    !! 0) = Some (Some (py "hello")) ∧
  ¬ wrote (extra_info_message (say "hello") pending_store) ∧
  res_store (extra_info_message (say "hello") completed_store) = completed_store ∧
  res_store (extra_info_message (say "hello") empty_store) = empty_store ∧
  wrote
    (pick_position (pick "t1" "Engineer")
       (res_store (extra_info_message (say "hello") pending_store))).
Proof.
  pose proof (message_captures_extra_info cfg0 (say "hello") pending_store)
    as (_ & _ & _ & Hpending & _).
  pose proof (message_captures_extra_info cfg0 (say "hello") completed_store)
    as (_ & _ & Hdone & _).
  pose proof (message_captures_extra_info cfg0 (say "hello") empty_store)
    as (_ & Hnone & _ & _ & Hscenario).
  cbv zeta in *.
  destruct (Hpending U1 0 jane_pending)
    as (_ & _ & (x & Hx & Hinfo & _) & Hw);
    [reflexivity|vm_compute; discriminate|vm_compute; reflexivity|reflexivity|].
  destruct (Hdone U1 0 (set_done true
                          (set_position (Some Engineer) jane_pending)))
    as (Hsame & _); [reflexivity|vm_compute; reflexivity|reflexivity|].
  destruct (Hnone U1) as (Hempty & _); [reflexivity|vm_compute; reflexivity|].
  destruct (Hscenario (nominate "t1" "Jane Doe") (pick "t1" "Engineer"))
    as (_ & _ & _ & _ & Hlast);
    [vm_compute; reflexivity|reflexivity|vm_compute; discriminate
    |vm_compute; reflexivity|vm_compute; lia|].
  split; [rewrite Hx; simpl; rewrite Hinfo; reflexivity|].
  split; [rewrite Hw; vm_compute; discriminate|].
  split; [exact Hsame|]. split; [exact Hempty|exact Hlast].
Defined.

Lemma report_effects_witness :
  res_effects (partybot_report report empty_store)
    = [Ack; PostMessage U1 (MsgReport [])] ∧
  res_effects (partybot_report report completed_store)
    = [Ack; PostMessage U1 (MsgReport [(Some Engineer, [Some Jane])])] ∧
  res_store (partybot_report report completed_store) = completed_store.
Proof.
  pose proof (report_effects report empty_store) as He.
  pose proof (report_effects report completed_store) as Hc.
  cbv zeta in *.
  destruct He as (_ & He & _ & _ & _ & _ & _ & _ & _ & Hnil & _).
  destruct Hc as (_ & Hc & _).
  split; [rewrite He, Hnil; reflexivity|].
  split; [rewrite Hc; vm_compute; reflexivity|].
  vm_compute. reflexivity.
Defined.

Lemma yaml_error_degrades_witness :
  known_candidates (st_config (startup YamlFails (Loaded [Engineer]))) = ∅ ∧
  st_raised (startup YamlFails (Loaded [Engineer])) = None ∧
  open_positions (st_config (startup (Loaded [Jane]) YamlFails)) = [] ∧
  st_raised (startup (Loaded [Jane]) YamlFails) = None.
Proof.
  pose proof (yaml_error_degrades YamlFails (Loaded [Engineer])) as (Hk & _).
  pose proof (yaml_error_degrades (Loaded [Jane]) YamlFails) as (_ & Hp).
  cbv zeta in *.
  destruct Hk as (Hk1 & _ & Hk2); [reflexivity|discriminate|].
  destruct Hp as (Hp1 & _ & Hp2); [reflexivity|discriminate|].
  split; [exact Hk1|]. split; [exact Hk2|]. split; [exact Hp1|exact Hp2].
Defined.

Lemma completed_and_done_witness :
  completed completed_store 0 ∧
  (done <$> heap completed_store !! 0) = Some true ∧
  lookup3 (Some alice) (Some Engineer) (Some Jane)
          (done_submissions_by_user completed_store) = Some 0.
Proof.
  assert (lookup3 (Some alice) (Some Engineer) (Some Jane)
                  (done_submissions_by_user completed_store) = Some 0) as Hl
    by (vm_compute; reflexivity).
  assert (completed completed_store 0) as Hc by (by eexists _, _, _).
  pose proof (completed_and_done cfg0
                [ESubmit (nominate "t1" "Jane Doe"); EPick (pick "t1" "Engineer")])
    as (Hdone & _).
  destruct (Hdone 0 Hc) as (x & Hx & Hd).
  split; [exact Hc|]. split; [|exact Hl].
  change (run cfg0 _ empty_store) with completed_store in Hx.
  rewrite Hx. simpl. rewrite Hd. reflexivity.
Defined.
End Checks.

(** * Further properties of the code *)

(** ** [split] and [join] *)

Section split_join.
Implicit Types (sep c : N) (s u : str) (parts : list str).

Lemma split_not_nil sep s : split sep s ≠ [].
Proof.
  destruct s as [|c s]; simpl; [done|].
  destruct (N.eqb c sep); [done|]. by destruct (split sep s).
Qed.

Lemma join_cons sep p parts :
  parts ≠ [] → join sep (p :: parts) = p ++ sep :: join sep parts.
Proof. by destruct parts. Qed.

Lemma join_split sep s : join sep (split sep s) = s.
Proof.
  induction s as [|c s IH]; simpl; [done|].
  destruct (N.eqb_spec c sep) as [->|Hne].
  - rewrite join_cons by apply split_not_nil. simpl. by rewrite IH.
  - pose proof (split_not_nil sep s) as Hnil.
    destruct (split sep s) as [|h t]; [done|].
    destruct t as [|h' t]; simpl in *; by rewrite <- IH.
Qed.

Lemma split_no_sep sep s : sep ∉ s → split sep s = [s].
Proof.
  induction s as [|c s IH]; simpl; [done|].
  intros [Hc Hs]%not_elem_of_cons.
  destruct (N.eqb_spec c sep) as [->|_]; [done|]. by rewrite IH.
Qed.

Lemma split_app_sep sep u s :
  sep ∉ u → split sep (u ++ sep :: s) = u :: split sep s.
Proof.
  induction u as [|c u IH]; simpl.
  - intros _. by rewrite N.eqb_refl.
  - intros [Hc Hu]%not_elem_of_cons.
    destruct (N.eqb_spec c sep) as [->|_]; [done|]. by rewrite IH.
Qed.

Lemma split_fields_no_sep sep s : Forall (λ p, sep ∉ p) (split sep s).
Proof.
  induction s as [|c s IH]; simpl.
  - apply Forall_singleton, not_elem_of_nil.
  - destruct (N.eqb_spec c sep) as [->|Hne].
    + apply Forall_cons. split; [apply not_elem_of_nil|done].
    + destruct (split sep s) as [|h t]; simpl.
      * apply Forall_singleton. rewrite not_elem_of_cons.
        split; [done|apply not_elem_of_nil].
      * apply Forall_cons in IH as [Hh Ht]. apply Forall_cons.
        split; [|done]. rewrite not_elem_of_cons. by split.
Qed.

Lemma split_join sep parts :
  parts ≠ [] → Forall (λ p, sep ∉ p) parts →
  split sep (join sep parts) = parts.
Proof.
  induction parts as [|p parts IH]; [done|]. intros _ Hall.
  apply Forall_cons in Hall as [Hp Hparts].
  destruct parts as [|p' parts].
  - simpl. by apply split_no_sep.
  - rewrite join_cons by done. rewrite split_app_sep by done.
    by rewrite IH.
Qed.

(** [split] and [join] on one separator are inverse to each other:
    joining the fields of a string gives the string back, and splitting
    the join of a non-empty list of fields, none of which holds the
    separator, gives the fields back. The fields of a split never hold
    the separator and there is always at least one. *)
Lemma split_join_round_trip sep s parts :
  join sep (split sep s) = s ∧
  split sep s ≠ [] ∧
  Forall (λ p, sep ∉ p) (split sep s) ∧
  (parts ≠ [] → Forall (λ p, sep ∉ p) parts →
     split sep (join sep parts) = parts).
Proof.
  split; [apply join_split|]. split; [apply split_not_nil|].
  split; [apply split_fields_no_sep|apply split_join].
Qed.
End split_join.

(** ** Reading a command *)

Section parsing.
Context `{PyLib}.
Variable cfg : Config.
Implicit Types (command : SubmitCommand) (s : Store).

Lemma split_hd_prefix sep (s : str) : hd [] (split sep s) `prefix_of` s.
Proof.
  pose proof (join_split sep s) as Hj.
  destruct (split sep s) as [|h t]; [by exists s|]. simpl.
  destruct t as [|h' t].
  - simpl in Hj. subst. exists []. by rewrite app_nil_r.
  - rewrite join_cons in Hj by done. by eexists.
Qed.

Lemma remove_char_spec c x (s : str) :
  x ∈ remove_char c s ↔ x ∈ s ∧ x ≠ c.
Proof.
  unfold remove_char. rewrite !list_elem_of_In, filter_In.
  destruct (N.eqb_spec x c); simpl; naive_solver.
Qed.

Lemma remove_char_id c (s : str) : c ∉ s → remove_char c s = s.
Proof.
  unfold remove_char. induction s as [|x s IH]; simpl; [done|].
  intros [Hx Hs]%not_elem_of_cons.
  destruct (N.eqb_spec x c) as [->|_]; [done|]. simpl. by rewrite IH.
Qed.

Lemma remove_char_app c (s1 s2 : str) :
  remove_char c (s1 ++ s2) = remove_char c s1 ++ remove_char c s2.
Proof. unfold remove_char. apply List.filter_app. Qed.

Lemma contains_spec c (s : str) : contains c s = true ↔ c ∈ s.
Proof.
  unfold contains. rewrite existsb_exists, list_elem_of_In. split.
  - intros (x & Hx & ->%N.eqb_eq). done.
  - intros Hc. exists c. by rewrite N.eqb_refl.
Qed.

Lemma clean_labelled (url_ label : str) :
  LT ∉ url_ → GT ∉ url_ →
  remove_char GT (remove_char LT (LT :: url_ ++ PIPE :: label ++ [GT]))
  = url_ ++ PIPE :: remove_char GT (remove_char LT label).
Proof.
  intros Hlt Hgt.
  change (LT :: url_ ++ PIPE :: label ++ [GT])
    with ([LT] ++ url_ ++ [PIPE] ++ label ++ [GT]).
  rewrite !remove_char_app.
  rewrite (remove_char_id LT url_), (remove_char_id GT url_) by done.
  change (remove_char GT (remove_char LT [LT])) with (@nil N).
  change (remove_char GT (remove_char LT [PIPE])) with [PIPE].
  change (remove_char GT (remove_char LT [GT])) with (@nil N).
  by rewrite app_nil_r.
Qed.

Lemma clean_bare (url_ : str) :
  LT ∉ url_ → GT ∉ url_ →
  remove_char GT (remove_char LT (LT :: url_ ++ [GT])) = url_.
Proof.
  intros Hlt Hgt.
  change (LT :: url_ ++ [GT]) with ([LT] ++ url_ ++ [GT]).
  rewrite !remove_char_app.
  rewrite (remove_char_id LT url_), (remove_char_id GT url_) by done.
  change (remove_char GT (remove_char LT [LT])) with (@nil N).
  change (remove_char GT (remove_char LT [GT])) with (@nil N).
  by rewrite app_nil_r.
Qed.

(** X1. The candidate name is the text of the command after its first
    space, taken as it is (later spaces included), and the URL is read
    from the text before it. A command without a space has the empty
    name: within the length limit and with a URL that [urlparse] accepts
    it is answered with the empty-name message and changes nothing. *)
Theorem command_parsing command s u rest :
  (cmd_text command = u ++ SPACE :: rest → SPACE ∉ u →
     candidate_name_of command = rest ∧
     hd [] (split SPACE (cmd_text command)) = u) ∧
  (SPACE ∉ cmd_text command →
     candidate_name_of command = [] ∧
     (length (cmd_text command) ≤ MAX_COMMAND_LENGTH → url_parses command →
        Respond MsgEmptyName ∈ res_effects (partybot_submit cfg command s) ∧
        res_store (partybot_submit cfg command s) = s)).
Proof.
  split.
  - intros Htext Hu. unfold candidate_name_of.
    rewrite Htext, split_app_sep by done. simpl. by rewrite join_split.
  - intros Hno.
    assert (candidate_name_of command = []) as Hname.
    { unfold candidate_name_of. by rewrite split_no_sep. }
    split; [done|]. intros Hlen Hurl.
    rewrite submit_empty_name by done. simpl. split; [set_solver|done].
Qed.

(** X2. The URL kept for a submission holds no angle bracket and no
    vertical bar. For a link as the messaging client writes it,
    [<url|label>] or [<url>], it is the bare [url]. *)
Theorem url_is_cleaned command url_ label name :
  let u := candidate_url_of command in
  ((LT ∉ u) ∧ (GT ∉ u) ∧ (PIPE ∉ u)) ∧
  (LT ∉ url_ → GT ∉ url_ → PIPE ∉ url_ → SPACE ∉ url_ → SPACE ∉ label →
   (cmd_text command = LT :: url_ ++ PIPE :: label ++ GT :: SPACE :: name →
      u = url_ ∧ candidate_name_of command = name) ∧
   (cmd_text command = LT :: url_ ++ GT :: SPACE :: name →
      u = url_ ∧ candidate_name_of command = name)).
Proof.
  simpl. split.
  - unfold candidate_url_of. cbv zeta.
    set (raw := hd [] (split SPACE (cmd_text command))).
    assert (LT ∉ remove_char GT (remove_char LT raw)) as Hlt.
    { rewrite !remove_char_spec. naive_solver. }
    assert (GT ∉ remove_char GT (remove_char LT raw)) as Hgt.
    { rewrite !remove_char_spec. naive_solver. }
    destruct (contains PIPE _) eqn:Hp.
    + pose proof (split_hd_prefix PIPE (remove_char GT (remove_char LT raw)))
        as [rest Hrest].
      pose proof (split_fields_no_sep PIPE (remove_char GT (remove_char LT raw)))
        as Hall.
      pose proof (split_not_nil PIPE (remove_char GT (remove_char LT raw))) as Hnil.
      rewrite Hrest in Hlt, Hgt. rewrite not_elem_of_app in Hlt, Hgt.
      destruct (split PIPE _) as [|h t]; [done|].
      apply Forall_cons in Hall as [Hh _]. simpl in *. tauto.
    + split; [done|]. split; [done|].
      intros Hin%contains_spec. congruence.
  - intros Hlt Hgt Hpipe Hsp Hsl. split.
    + intros Htext.
      assert (cmd_text command
              = (LT :: url_ ++ PIPE :: label ++ [GT]) ++ SPACE :: name) as Htext'.
      { rewrite Htext. simpl. rewrite <- !app_assoc. simpl.
        by rewrite <- app_assoc. }
      assert (SPACE ∉ LT :: url_ ++ PIPE :: label ++ [GT]) as Hno.
      { rewrite not_elem_of_cons, not_elem_of_app, not_elem_of_cons,
          not_elem_of_app, not_elem_of_cons.
        repeat split; try done. apply not_elem_of_nil. }
      split.
      * unfold candidate_url_of. rewrite Htext', split_app_sep by done.
        cbv zeta. cbn [hd].
        rewrite (clean_labelled url_ label) by done.
        assert (contains PIPE (url_ ++ PIPE :: remove_char GT (remove_char LT label))
                = true) as ->.
        { apply contains_spec. rewrite elem_of_app, elem_of_cons. auto. }
        by rewrite split_app_sep.
      * unfold candidate_name_of. rewrite Htext', split_app_sep by done.
        simpl. by rewrite join_split.
    + intros Htext.
      assert (cmd_text command = (LT :: url_ ++ [GT]) ++ SPACE :: name) as Htext'.
      { rewrite Htext. simpl. by rewrite <- app_assoc. }
      assert (SPACE ∉ LT :: url_ ++ [GT]) as Hno.
      { rewrite not_elem_of_cons, not_elem_of_app, not_elem_of_cons.
        repeat split; try done. apply not_elem_of_nil. }
      split.
      * unfold candidate_url_of. rewrite Htext', split_app_sep by done.
        cbv zeta. cbn [hd].
        rewrite (clean_bare url_) by done.
        destruct (contains PIPE url_) eqn:Hc; [|done].
        apply contains_spec in Hc. done.
      * unfold candidate_name_of. rewrite Htext', split_app_sep by done.
        simpl. by rewrite join_split.
Qed.
End parsing.

(** ** Tokens in interactive values *)

Section values.
Context `{PyLib}.
Variable cfg : Config.

Lemma token_of_option_value (token label : str) :
  COLON ∉ token → token_of (option_value token label) = token.
Proof.
  intros Hno. unfold token_of, option_value. by rewrite split_app_sep.
Qed.

Lemma token_of_no_colon (value : str) : COLON ∉ token_of value.
Proof.
  unfold token_of.
  pose proof (split_fields_no_sep COLON value) as Hall.
  destruct (split COLON value) as [|h t]; simpl; [apply not_elem_of_nil|].
  by apply Forall_cons in Hall as [? _].
Qed.

(** X3. The token of a nomination comes back from the values of its
    interactive elements when it holds no colon: the handlers read the
    text before the first colon, whatever the position text holds.
    So a pick of any option of the picker of an accepted nomination, by
    a user under the quota, completes that very submission under the
    picked position, and a press of its cancel button returns normally
    and takes its canonical name out of the submitted set. *)
Theorem interactive_values_round_trip (command : SubmitCommand)
    (pick : PickBody) (cancel : CancelBody) (label : str) (s : Store) :
  COLON ∉ cmd_uuid command →
  accepted (partybot_submit cfg command s) →
  let s1 := res_store (partybot_submit cfg command s) in
  let r := length (heap s) in
  (token_of (option_value (cmd_uuid command) label) = cmd_uuid command) ∧
  (pick_value pick = option_value (cmd_uuid command) (pick_text pick) →
   completed_count s (pick_username pick) (pick_text pick) < CANDIDATE_LIMIT →
     ∃ x, heap (res_store (pick_position pick s1)) !! r = Some x ∧
          candidate x = Some (candidate_name_of command) ∧
          position x = Some (pick_text pick) ∧ done x = true) ∧
  (cancel_value cancel = option_value (cmd_uuid command) label →
     res_raised (cancel_submission cancel s1) = None ∧
     (canonicalize_name (candidate_name_of command)
        ∉ submitted_candidates (res_store (cancel_submission cancel s1)))).
Proof.
  intros Hno Hacc. cbv zeta.
  destruct (accepted_lookup cfg command s Hacc) as (Hcur & Hget & Hdone & Hlen).
  cbv zeta in *.
  match type of Hget with _ = Some (_, ?x) => set (x0 := x) in * end.
  split; [by apply token_of_option_value|]. split.
  - intros Hvalue Hq.
    rewrite (pick_completes pick _ (length (heap s)) x0).
    + cbv zeta. eexists. split.
      * apply finish_heap. simpl. lia.
      * done.
    + unfold completed_count in *. by rewrite Hdone.
    + by rewrite Hvalue, token_of_option_value.
  - intros Hvalue.
    rewrite (cancel_removes cancel _ (length (heap s)) x0
               (candidate_name_of command)).
    + simpl. split; [done|]. set_solver.
    + by rewrite Hvalue, token_of_option_value.
    + done.
    + by apply accepted_submitted.
Qed.
End values.

(** ** Canonical names *)

Section canonical.
Context `{PyLib}.
Variable cfg : Config.

Lemma canonicalize_drop (n1 n2 : str) (c : N) :
  isalpha c = false →
  canonicalize_name (n1 ++ c :: n2) = canonicalize_name (n1 ++ n2).
Proof.
  intros Hc. unfold canonicalize_name.
  rewrite !List.filter_app. simpl. by rewrite Hc.
Qed.

Lemma canonicalize_letterless (name : str) :
  Forall (λ c, isalpha c = false) name →
  canonicalize_name name = lower [].
Proof.
  intros Hall. unfold canonicalize_name. f_equal.
  induction Hall as [|c name Hc _ IH]; simpl; [done|]. by rewrite Hc.
Qed.

(** X4. The canonical name looks at the alphabetic characters only: a
    character that is not alphabetic can be dropped from a name, or put
    into it, without changing its canonical form. All names without a
    letter share one canonical form, so once a nomination with such a
    name is accepted, a nomination with any other such name (in a
    command that passes the earlier checks) is answered as a
    duplicate. *)
Theorem canonical_name_ignores_non_letters (n1 n2 : str) (c : N)
    (first second : SubmitCommand) (s : Store) :
  (isalpha c = false →
     canonicalize_name (n1 ++ c :: n2) = canonicalize_name (n1 ++ n2)) ∧
  (Forall (λ c, isalpha c = false) (candidate_name_of first) →
   Forall (λ c, isalpha c = false) (candidate_name_of second) →
   accepted (partybot_submit cfg first s) →
   length (cmd_text second) ≤ MAX_COMMAND_LENGTH →
   url_parses second →
   candidate_name_of second ≠ [] →
     let s1 := res_store (partybot_submit cfg first s) in
     Respond (MsgDuplicate (candidate_name_of second))
       ∈ res_effects (partybot_submit cfg second s1) ∧
     res_store (partybot_submit cfg second s1) = s1).
Proof.
  split; [apply canonicalize_drop|].
  intros Hfirst Hsecond Hacc Hlen Hurl Hne. cbv zeta.
  pose proof (accepted_submitted cfg first s Hacc) as Hin.
  apply accepted_iff in Hacc as (_ & _ & _ & Hpool & _).
  rewrite (canonicalize_letterless _ Hfirst) in Hin, Hpool.
  rewrite submit_duplicate;
    [|done|done|done|by rewrite (canonicalize_letterless _ Hsecond)
     |by rewrite (canonicalize_letterless _ Hsecond)].
  simpl. split; [set_solver|done].
Qed.
End canonical.

(** ** The registry of known candidates *)

Section registry.
Context `{PyLib}.

Lemma foldl_insert_lookup (f : str → str) (doc : list str)
    (m : gmap str str) (k : str) :
  foldl (λ m c, <[c := f c]> m) m doc !! k
  = if decide (k ∈ doc) then Some (f k) else m !! k.
Proof.
  revert m. induction doc as [|c doc IH]; intros m; simpl.
  - done.
  - rewrite IH. destruct (decide (k ∈ doc)) as [Hin|Hout].
    + rewrite decide_True; [done|]. by apply list_elem_of_further.
    + destruct (decide (k = c)) as [->|Hne].
      * rewrite decide_True by apply list_elem_of_here.
        by rewrite lookup_insert_eq.
      * rewrite decide_False.
        -- by rewrite lookup_insert_ne.
        -- rewrite elem_of_cons. tauto.
Qed.

(** X5. After start-up with a list of known candidates that parses, the
    mapping of known candidates takes each listed name to its canonical
    form and holds nothing else, so a canonical name is in the pool
    exactly when it is the canonical form of a listed name; the open
    positions are the list of the file, in its order. When the list of
    known candidates fails to parse, no name is in the pool. *)
Theorem known_registry (doc positions : list str) (k : str) :
  let st := startup (Loaded doc) (Loaded positions) in
  st_raised st = None ∧
  st_effects st = [] ∧
  open_positions (st_config st) = positions ∧
  known_candidates (st_config st) !! k
    = (if decide (k ∈ doc) then Some (canonicalize_name k) else None) ∧
  (in_pool (st_config st) k ↔ ∃ c, c ∈ doc ∧ canonicalize_name c = k) ∧
  ¬ in_pool (st_config (startup YamlFails (Loaded positions))) k.
Proof.
  simpl. split; [done|]. split; [done|]. split; [done|].
  split; [by rewrite foldl_insert_lookup, lookup_empty|]. split.
  - unfold in_pool. simpl. split.
    + intros (c & v & Hc & <-). rewrite foldl_insert_lookup in Hc.
      case_decide; [|by rewrite lookup_empty in Hc].
      exists c. split; [done|]. congruence.
    + intros (c & Hin & <-). exists c, (canonicalize_name c). split; [|done].
      rewrite foldl_insert_lookup. by rewrite decide_True.
  - unfold in_pool. simpl. intros (c & v & Hc & _).
    by rewrite lookup_empty in Hc.
Qed.
End registry.

(** ** Every event as elementary changes *)

Section changes.
Context `{PyLib}.
Variable cfg : Config.

Lemma last_written_app (l1 l2 : list Effect) :
  last_written (l1 ++ l2)
  = match last_written l2 with Some rows => Some rows | None => last_written l1 end.
Proof.
  induction l1 as [|e l1 IH]; simpl; [by destruct (last_written l2)|].
  rewrite IH. by destruct (last_written l2).
Qed.

Lemma submit_never_writes (command : SubmitCommand) s :
  last_written (res_effects (partybot_submit cfg command s)) = None.
Proof.
  rewrite partybot_submit_eq. case_decide; [done|].
  destruct (urlparse_scheme (candidate_url_of command)) as [scheme|]; [|done].
  cbv zeta.
  destruct (truthy (Some scheme)), (negb (truthy (Some (candidate_name_of command))));
    repeat case_decide; reflexivity.
Qed.

Lemma with_info_fields (body : MessageBody) x :
  referer (with_info body x) = referer x ∧
  candidate (with_info body x) = candidate x ∧
  url (with_info body x) = url x ∧
  position (with_info body x) = position x ∧
  done (with_info body x) = done x.
Proof. unfold with_info. by destruct (msg_file body). Qed.

Lemma handle_change e s :
  let res := handle cfg e s in
  ∃ s1, rtc (change false) s s1 ∧
    ((res_store res = s1 ∧ last_written (res_effects res) = None) ∨
     (change true s1 (res_store res) ∧
      last_written (res_effects res) = Some (leads (res_store res)))).
Proof.
  destruct e as [command|command|body|body|body]; simpl.
  - destruct (submit_store cfg command s) as [Hs|[Hacc Hs]].
    + exists s. split; [done|]. left. split; [done|apply submit_never_writes].
    + eexists. split; [|left; split; [reflexivity|apply submit_never_writes]].
      rewrite Hs. apply rtc_once. apply change_alloc; simpl; eauto.
  - rewrite report_eq. simpl. eexists. split; [|by left].
    apply rtc_once, change_touch1.
  - destruct (decide (CANDIDATE_LIMIT
                        ≤ completed_count s (pick_username body) (pick_text body))).
    { rewrite pick_refused by done. exists s. split; [done|]. by left. }
    destruct (get_submission s (Some (token_of (pick_value body))))
      as [[r x]|] eqn:Hget.
    + rewrite (pick_completes _ _ r x) by (done || lia). cbv zeta.
      eexists. split; [apply rtc_once, change_touch2|]. right. split.
      * apply (change_finish _ _ _ x); simpl; [|done..].
        eapply get_submission_heap, Hget.
      * done.
    + rewrite pick_unknown by (done || lia). simpl.
      eexists. split; [apply rtc_once, change_touch2|]. by left.
  - unfold cancel_submission.
    destruct (get_submission _ _) as [[r x]|];
      [|exists s; split; [done|by left]].
    destruct (candidate x); [|exists s; split; [done|by left]].
    case_decide; [|exists s; split; [done|by left]].
    eexists. split; [apply rtc_once, change_submitted|]. by left.
  - destruct (decide (truthy (msg_user body) = false)) as [Hu|Hu].
    { rewrite message_no_user by done. exists s. split; [done|]. by left. }
    destruct (msg_user body) as [[|c u]|] eqn:Huser; [done| |done].
    destruct (get_submission s (current_token_by_user_id s !! (c :: u)))
      as [[r x]|] eqn:Hget.
    + destruct (done x) eqn:Hdone.
      { rewrite (message_done body s (c :: u) r x) by done.
        exists s. split; [done|]. by left. }
      rewrite (message_saved body s (c :: u) r x) by done. cbv zeta.
      destruct (with_info_fields body x) as (Hr & Hc & Hurl & Hp & Hd).
      pose proof (get_submission_heap s _ r x Hget) as Hx.
      exists (with_heap (<[r := with_info body x]> (heap s)) s). split.
      { apply rtc_once. apply (change_write _ _ x); try done. congruence. }
      destruct (truthy (position x)).
      * right. split.
        -- apply (change_finish _ _ _ (with_info body x)); simpl; [|done..].
           apply list_lookup_insert_eq. by eapply lookup_lt_Some.
        -- simpl. rewrite last_written_app. done.
      * left. split; [done|]. simpl. rewrite last_written_app. simpl.
        by destruct (msg_file body).
    + rewrite (message_unrelated body s (c :: u)) by done.
      exists s. split; [done|]. by left.
Qed.

(** A property of stores kept by every elementary change is kept by
    every event, hence by every sequence of events. *)
Lemma change_invariant (P : Store → Prop) :
  (∀ b s s', change b s s' → P s → P s') →
  ∀ events s, P s → P (run cfg events s).
Proof.
  intros Hstep events. induction events as [|e events IH]; intros s Hs; [done|].
  rewrite run_cons. apply IH.
  destruct (handle_change e s) as (s1 & Hquiet & Hlast). simpl in Hlast.
  assert (P s1) as Hs1.
  { clear Hlast. induction Hquiet; eauto. }
  destruct Hlast as [[-> _]|[Hfin _]]; eauto.
Qed.
End changes.

(** ** The entries of the completed structure *)

Section odict_places.
Context {K V : Type} `{EqDecision K}.

Lemma od_set_present (k : K) (v0 : V) (d : odict K V) :
  od_get k d = Some v0 →
  ∃ d1 d2, d = d1 ++ (k, v0) :: d2 ∧ ∀ v, od_set k v d = d1 ++ (k, v) :: d2.
Proof.
  induction d as [|[k0 v1] d IH]; simpl; [done|].
  destruct (decide (k = k0)) as [->|Hne].
  - intros [= ->]. exists [], d. split; [done|]. intros v. simpl. done.
  - intros Hd. destruct (IH Hd) as (d1 & d2 & -> & Hset).
    exists ((k0, v1) :: d1), d2. split; [done|]. intros v. simpl.
    by rewrite Hset.
Qed.

Lemma od_get_elem (k : K) (v : V) (d : odict K V) :
  od_get k d = Some v → (k, v) ∈ d.
Proof.
  intros (d1 & d2 & -> & _)%od_set_present.
  apply elem_of_app. right. apply list_elem_of_here.
Qed.

Lemma elem_of_od_set (k k' : K) (v v' : V) (d : odict K V) :
  (k', v') ∈ od_set k v d → (k' = k ∧ v' = v) ∨ (k', v') ∈ d.
Proof.
  induction d as [|[k0 v0] d IH]; simpl.
  - intros [[= -> ->]|[]%elem_of_nil]%elem_of_cons. by left.
  - destruct (decide (k = k0)) as [->|Hne].
    + intros [[= -> ->]|Hin]%elem_of_cons; [by left|].
      right. by apply list_elem_of_further.
    + intros [[= -> ->]|Hin]%elem_of_cons.
      * right. apply list_elem_of_here.
      * destruct (IH Hin) as [?|?]; [by left|].
        right. by apply list_elem_of_further.
Qed.

End odict_places.

Section entries_facts.
Implicit Types (d : by_user_t) (a b c : option str) (r : ref).

Lemma elem_of_entries a b c r d :
  (a, b, c, r) ∈ entries d ↔
  ∃ by_position by_name,
    (a, by_position) ∈ d ∧ (b, by_name) ∈ by_position ∧ (c, r) ∈ by_name.
Proof.
  unfold entries. split.
  - intros ([a' bp] & Hin & Hbp)%list_elem_of_bind.
    apply list_elem_of_bind in Hin as ([b' bn] & Hin & Hbn).
    apply list_elem_of_bind in Hin as ([c' r'] & Hin & Hcr).
    apply list_elem_of_singleton in Hin as [= -> -> -> ->].
    by exists bp, bn.
  - intros (bp & bn & Hbp & Hbn & Hcr).
    apply list_elem_of_bind. exists (a, bp). split; [|done].
    apply list_elem_of_bind. exists (b, bn). split; [|done].
    apply list_elem_of_bind. exists (c, r). split; [|done].
    apply list_elem_of_here.
Qed.

Lemma entries_app d1 d2 : entries (d1 ++ d2) = entries d1 ++ entries d2.
Proof. unfold entries. apply bind_app. Qed.

Lemma entries_touch1 a d : entries (od_getitem_default [] a d).2 = entries d.
Proof.
  rewrite od_getitem_default_snd. destruct (od_get a d) eqn:Ha; [done|].
  rewrite (od_set_absent _ _ _ Ha), entries_app. simpl. by rewrite app_nil_r.
Qed.

Lemma entries_touch2 a b d : entries (getitem2 a b d).2 = entries d.
Proof.
  rewrite getitem2_eq. simpl.
  destruct (od_get a d) as [bp|] eqn:Ha; simpl.
  - destruct (od_set_present a bp d Ha) as (d1 & d2 & -> & Hset).
    rewrite Hset, !entries_app. f_equal.
    change ((a, ?v) :: d2) with ([(a, v)] ++ d2). rewrite !entries_app. f_equal.
    destruct (od_get b bp) as [bn|] eqn:Hb; simpl.
    + by rewrite (od_set_id b bn bp).
    + rewrite (od_set_absent _ _ _ Hb). unfold entries. simpl.
      rewrite !app_nil_r, bind_app. simpl. by rewrite app_nil_r.
  - rewrite (od_set_absent _ _ _ Ha), entries_app. simpl. by rewrite app_nil_r.
Qed.

Lemma entries_setitem3 a b c r a' b' c' r' d :
  (a', b', c', r') ∈ entries (setitem3 a b c r d) →
  (a', b', c', r') = (a, b, c, r) ∨ (a', b', c', r') ∈ entries d.
Proof.
  rewrite setitem3_eq. cbv zeta. rewrite !elem_of_entries.
  intros (bp' & bn' & Hbp & Hbn & Hcr).
  apply elem_of_od_set in Hbp as [[-> ->]|Hbp];
    [|right; by exists bp', bn'].
  apply elem_of_od_set in Hbn as [[-> ->]|Hbn].
  - apply elem_of_od_set in Hcr as [[-> ->]|Hcr]; [by left|].
    right. destruct (od_get a d) as [bp|] eqn:Ha; simpl in *.
    + destruct (od_get b bp) as [bn|] eqn:Hb; simpl in *;
        [|by apply elem_of_nil in Hcr].
      exists bp, bn. split; [by apply od_get_elem|].
      split; [by apply od_get_elem|done].
    + by apply elem_of_nil in Hcr.
  - right. destruct (od_get a d) as [bp|] eqn:Ha; simpl in *;
      [|by apply elem_of_nil in Hbn].
    exists bp, bn'. split; [by apply od_get_elem|done].
Qed.

Lemma entries_setitem3_new a b c r d :
  (a, b, c, r) ∈ entries (setitem3 a b c r d).
Proof.
  pose proof (lookup3_setitem3 a b c r a b c d) as Hl.
  rewrite decide_True in Hl by done.
  unfold lookup3, lookup2 in Hl.
  destruct (od_get a _) as [bp|] eqn:Ha; simpl in Hl; [|done].
  destruct (od_get b bp) as [bn|] eqn:Hb; simpl in Hl; [|done].
  apply elem_of_entries. exists bp, bn.
  split; [by apply od_get_elem|]. split; by apply od_get_elem.
Qed.

(** [leads] and [held] read the entries in order. *)
Lemma flat_entries {B} (g : ref → list B) d :
  (by_position ← od_values d;
   by_name ← od_values by_position;
   r ← od_values by_name; g r)
  = entries d ≫= (λ e, g e.2).
Proof.
  unfold entries, od_values.
  induction d as [|[a bp] d IHd]; [done|].
  cbn [fmap list_fmap mbind list_bind snd].
  rewrite bind_app, IHd. f_equal. clear IHd.
  induction bp as [|[b bn] bp IHbp]; [done|].
  cbn [fmap list_fmap mbind list_bind snd].
  rewrite bind_app, IHbp. f_equal. clear IHbp.
  induction bn as [|[c r] bn IHbn]; [done|].
  cbn [fmap list_fmap mbind list_bind snd].
  rewrite bind_app, IHbn. simpl. by rewrite app_nil_r.
Qed.

Lemma leads_entries s :
  leads s = entries (done_submissions_by_user s)
              ≫= (λ e, option_list (heap s !! e.2)).
Proof. unfold leads. apply flat_entries. Qed.

Lemma bind_ext_in {A B} (f g : A → list B) (l : list A) :
  (∀ x, x ∈ l → f x = g x) → l ≫= f = l ≫= g.
Proof.
  induction l as [|x l IH]; [done|]. intros Hfg. simpl.
  rewrite Hfg by apply list_elem_of_here. f_equal.
  apply IH. intros y Hy. apply Hfg. by apply list_elem_of_further.
Qed.
End entries_facts.

(** ** What every sequence of events keeps *)

Section kept.
Context `{PyLib}.
Variable cfg : Config.

Lemma change_refs_resolve b s s' : change b s s' → refs_resolve s → refs_resolve s'.
Proof.
  intros Hc [Htok Hcur]. destruct Hc; try (split; assumption).
  - split.
    + intros tok r' Hl. simpl in *.
      apply lookup_insert_Some in Hl as [[<- <-]|[_ Hr]];
        rewrite length_app; simpl; [lia|]. apply Htok in Hr. lia.
    + intros u tok Hl. simpl in *.
      apply lookup_insert_Some in Hl as [[_ <-]|[_ Hu]].
      * rewrite lookup_insert_eq. by eexists.
      * destruct (Hcur _ _ Hu) as [r' Hr'].
        destruct (decide (token = tok)) as [->|Hne].
        -- rewrite lookup_insert_eq. by eexists.
        -- rewrite lookup_insert_ne by done. by eexists.
  - split; [|done]. intros tok r'. simpl. rewrite length_insert. apply Htok.
  - split; [|done]. intros tok r'. simpl. rewrite length_insert. apply Htok.
Qed.

Lemma change_pending b s s' :
  change b s s' → pending_unpositioned s → pending_unpositioned s'.
Proof.
  intros Hc Hinv. destruct Hc; try assumption; intros r' x0; simpl.
  - intros [?|[_ Hlast]]%lookup_app_Some Hd; [by eapply Hinv|].
    by apply list_lookup_singleton_Some in Hlast as [_ <-].
  - intros [(<- & <- & _)|[_ ?]]%list_lookup_insert_Some Hd; [|by eapply Hinv].
    match goal with Hp : position x' = position x |- _ => rewrite Hp end.
    by eapply Hinv.
  - intros [(<- & <- & _)|[_ ?]]%list_lookup_insert_Some Hd; [done|].
    by eapply Hinv.
Qed.

Lemma change_entries_filed b s s' :
  change b s s' → entries_filed s → entries_filed s'.
Proof.
  intros Hc Hinv. destruct Hc; try assumption.
  - intros a0 b0 c0 r0. simpl. rewrite entries_touch1. apply Hinv.
  - intros a0 b0 c0 r0. simpl. rewrite entries_touch2. apply Hinv.
  - intros a0 b0 c0 r0 Hin. simpl in *.
    destruct (Hinv _ _ _ _ Hin) as (x0 & Hx0 & ?). exists x0.
    split; [by apply lookup_app_l_Some|done].
  - intros a0 b0 c0 r0 Hin. simpl in *.
    destruct (Hinv _ _ _ _ Hin) as (x0 & Hx0 & Hd0 & ?). exists x0.
    split; [|done]. rewrite list_lookup_insert_ne; [done|].
    intros ->. congruence.
  - intros a0 b0 c0 r0 Hin. simpl in *.
    assert (r < length (heap s)) as Hlt by (by eapply lookup_lt_Some).
    apply entries_setitem3 in Hin as [[= -> -> -> ->]|Hin].
    + eexists. split; [by apply list_lookup_insert_eq|]. done.
    + destruct (Hinv _ _ _ _ Hin) as (x0 & Hx0 & Hd0 & Hr0 & Hc0).
      destruct (decide (r0 = r)) as [->|Hne].
      * eexists. split; [by apply list_lookup_insert_eq|]. simpl.
        split; [done|]. split; congruence.
      * exists x0. split; [|done]. by rewrite list_lookup_insert_ne.
Qed.

Lemma reachable_kept events :
  let s := run cfg events empty_store in
  refs_resolve s ∧ pending_unpositioned s ∧ entries_filed s.
Proof.
  simpl. split; [|split].
  - apply change_invariant; [apply change_refs_resolve|].
    split; intros ? ? Hl; simpl in Hl; by rewrite lookup_empty in Hl.
  - apply change_invariant; [apply change_pending|]. by intros r x.
  - apply change_invariant; [apply change_entries_filed|].
    intros a b c r []%elem_of_nil.
Qed.
End kept.

Section kept_theorems.
Context `{PyLib}.
Variable cfg : Config.

Lemma refs_resolve_get s token :
  refs_resolve s → is_Some (submissions_by_token s !! token) →
  is_Some (get_submission s (Some token)).
Proof.
  intros [Htok _] [r Hr]. unfold get_submission. simpl. rewrite Hr. simpl.
  destruct (lookup_lt_is_Some_2 (heap s) r (Htok _ _ Hr)) as [x Hx].
  rewrite Hx. by eexists.
Qed.

(** X6. In every store reached by a sequence of events no reference
    dangles: every token of the token map and every user's active token
    resolves to a submission, and every entry of the completed
    structure holds a submission. So a message of a user who has an
    active token is never logged as unrelated, and a position pick, by
    a user under the quota, with a token of the token map never gets
    the internal-error answer. *)
Theorem references_resolve (events : list Event) (body : MessageBody)
    (pick : PickBody) :
  let s := run cfg events empty_store in
  (∀ token, is_Some (submissions_by_token s !! token) →
            is_Some (get_submission s (Some token))) ∧
  (∀ user_id token, current_token_by_user_id s !! user_id = Some token →
                    is_Some (get_submission s (Some token))) ∧
  (∀ a b c r, (a, b, c, r) ∈ entries (done_submissions_by_user s) →
              is_Some (heap s !! r)) ∧
  (∀ user_id, msg_user body = Some user_id →
     is_Some (current_token_by_user_id s !! user_id) →
     LogInfo (LogUnrelated user_id (msg_text body))
       ∉ res_effects (extra_info_message body s)) ∧
  (is_Some (submissions_by_token s !! token_of (pick_value pick)) →
   PostMessage (pick_user_id pick) MsgOops ∉ res_effects (pick_position pick s)).
Proof.
  intros s. destruct (reachable_kept cfg events) as (Hrefs & _ & Hfiled).
  fold s in Hrefs, Hfiled.
  split; [intros token; by apply refs_resolve_get|].
  split; [intros u token Hu; apply refs_resolve_get; [done|];
          by apply (proj2 Hrefs u)|].
  split.
  { intros a b c r Hin. destruct (Hfiled _ _ _ _ Hin) as (x & Hx & _).
    by eexists. }
  split.
  - intros user_id Hu [token Htoken].
    destruct (refs_resolve_get s token Hrefs (proj2 Hrefs _ _ Htoken))
      as [[r x] Hget].
    destruct user_id as [|c u].
    { rewrite message_no_user by (by rewrite Hu). apply not_elem_of_nil. }
    assert (get_submission s (current_token_by_user_id s !! (c :: u))
            = Some (r, x)) as Hget' by (by rewrite Htoken).
    destruct (done x) eqn:Hdone.
    + rewrite (message_done body s (c :: u) r x) by done.
      apply not_elem_of_nil.
    + rewrite (message_saved body s (c :: u) r x) by done.
      cbv zeta. intros Hin.
      destruct (truthy (position x)), (msg_file body);
        apply list_elem_of_In in Hin; simpl in Hin; intuition discriminate.
  - intros Htoken.
    destruct (refs_resolve_get s _ Hrefs Htoken) as [[r x] Hget].
    destruct (decide (CANDIDATE_LIMIT
                        ≤ completed_count s (pick_username pick) (pick_text pick))).
    + rewrite pick_refused by done. simpl.
      intros Hin. apply list_elem_of_In in Hin. simpl in Hin.
      intuition discriminate.
    + rewrite (pick_completes pick s r x) by (done || lia). cbv zeta.
      intros Hin. apply list_elem_of_In in Hin. simpl in Hin.
      intuition discriminate.
Qed.

(** X7. Whatever events follow, a submission keeps its referer, its
    candidate name and its URL, and once it is done it stays done. *)
Theorem identity_fields_are_kept (events : list Event) (s : Store) (r : ref)
    (x : Submission) :
  heap s !! r = Some x →
  ∃ x', heap (run cfg events s) !! r = Some x' ∧
        referer x' = referer x ∧ candidate x' = candidate x ∧ url x' = url x ∧
        (done x = true → done x' = true).
Proof.
  intros Hx.
  apply (change_invariant cfg
           (λ s', ∃ x', heap s' !! r = Some x' ∧
                        referer x' = referer x ∧ candidate x' = candidate x ∧
                        url x' = url x ∧ (done x = true → done x' = true)));
    [|by exists x].
  clear. intros b s s' Hc (x1 & Hx1 & Hr & Hcand & Hurl & Hdone).
  destruct Hc as [| | | |s r0 x0 x0' Hx0 Hd0 Hd0' Hr0 Hc0 Hu0 Hp0
                  |s uid r0 x0 x0' Hx0 Hr0 Hc0 Hu0]; simpl;
    try (by exists x1).
  - exists x1. split; [by apply lookup_app_l_Some|done].
  - destruct (decide (r = r0)) as [->|Hne].
    + exists x0'. split; [apply list_lookup_insert_eq; by eapply lookup_lt_Some|].
      assert (x1 = x0) as -> by congruence.
      repeat split; try congruence. intros Hd. apply Hdone in Hd. congruence.
    + exists x1. split; [by rewrite list_lookup_insert_ne|done].
  - destruct (decide (r = r0)) as [->|Hne].
    + eexists. split; [apply list_lookup_insert_eq; by eapply lookup_lt_Some|].
      assert (x1 = x0) as -> by congruence. simpl.
      repeat split; congruence.
    + exists x1. split; [by rewrite list_lookup_insert_ne|done].
Qed.

(** X10. In every store reached by a sequence of events, each entry of
    the completed structure holds a done submission and is filed under
    the referer and the candidate name of that submission; the rows of
    the leads file are as many as the entries, and each row is done. *)
Theorem entries_are_filed (events : list Event) :
  let s := run cfg events empty_store in
  (∀ a b c r,
     (a, b, c, r) ∈ entries (done_submissions_by_user s) →
     ∃ x, heap s !! r = Some x ∧ done x = true ∧
          referer x = a ∧ candidate x = c) ∧
  length (leads s) = length (entries (done_submissions_by_user s)) ∧
  (∀ row, row ∈ leads s → done row = true).
Proof.
  intros s. destruct (reachable_kept cfg events) as (_ & _ & Hfiled).
  fold s in Hfiled. split; [exact Hfiled|].
  rewrite leads_entries.
  assert (∀ l : list (option str * option str * option str * ref),
            (∀ e, e ∈ l → ∃ x, heap s !! e.2 = Some x ∧ done x = true) →
               length (l ≫= (λ e, option_list (heap s !! e.2))) = length l ∧
               ∀ row, row ∈ l ≫= (λ e, option_list (heap s !! e.2)) →
                      done row = true) as Hgen.
  { induction l as [|e l IH]; intros Hall.
    - split; [done|]. by intros row []%elem_of_nil.
    - destruct (Hall e) as (x & Hx & Hd); [apply list_elem_of_here|].
      destruct IH as [IHlen IHrows].
      { intros e' He'. apply Hall. by apply list_elem_of_further. }
      rewrite bind_cons, Hx. simpl. split; [by rewrite IHlen|].
      intros row [->|Hrow]%elem_of_cons; [done|by apply IHrows]. }
  apply Hgen. intros [[[a b] c] r] Hin.
  destruct (Hfiled _ _ _ _ Hin) as (x & Hx & Hd & _). by exists x.
Qed.

(** X11. In every store reached by a sequence of events a submission
    that is not done has no position. So the completion at the end of
    [extra_info_message] is never reached: a message marks no
    submission done, leaves the completed structure as it is and does
    not rewrite the leads file. *)
Theorem message_never_completes (events : list Event) (body : MessageBody) :
  let s := run cfg events empty_store in
  let res := extra_info_message body s in
  (∀ r x, heap s !! r = Some x → done x = false → position x = None) ∧
  ¬ wrote res ∧
  done_submissions_by_user (res_store res) = done_submissions_by_user s ∧
  (done <$> heap (res_store res)) = (done <$> heap s).
Proof.
  intros s res. destruct (reachable_kept cfg events) as (_ & Hpending & _).
  fold s in Hpending. split; [exact Hpending|]. subst res.
  destruct (decide (truthy (msg_user body) = false)) as [Hu|Hu].
  { by rewrite message_no_user. }
  destruct (msg_user body) as [[|c u]|] eqn:Huser; [done| |done].
  destruct (get_submission s (current_token_by_user_id s !! (c :: u)))
    as [[r x]|] eqn:Hget;
    [|by rewrite (message_unrelated body s (c :: u))].
  destruct (done x) eqn:Hdone;
    [by rewrite (message_done body s (c :: u) r x)|].
  pose proof (get_submission_heap s _ r x Hget) as Hx.
  rewrite (message_saved body s (c :: u) r x) by done. cbv zeta.
  rewrite (Hpending r x Hx Hdone). simpl.
  split; [|split; [done|]].
  - unfold wrote. simpl. rewrite existsb_app. simpl.
    by destruct (msg_file body).
  - rewrite list_fmap_insert.
    destruct (with_info_fields body x) as (_ & _ & _ & _ & ->).
    apply list_insert_id. by rewrite list_lookup_fmap, Hx.
Qed.
End kept_theorems.

(** ** The leads file and the store *)

Section file.
Context `{PyLib}.
Variable cfg : Config.

Lemma change_quiet_leads s s' :
  change false s s' → entries_filed s → leads s' = leads s.
Proof.
  intros Hc Hfiled. rewrite !leads_entries.
  inversion Hc; subst; simpl.
  - by rewrite entries_touch1.
  - by rewrite entries_touch2.
  - done.
  - apply bind_ext_in. intros [[[a b] c0] r] Hin. simpl.
    destruct (Hfiled _ _ _ _ Hin) as (x0 & Hx0 & _).
    rewrite Hx0. by rewrite (lookup_app_l_Some _ _ _ _ Hx0).
  - apply bind_ext_in. intros [[[a b] c0] r0] Hin. simpl.
    destruct (Hfiled _ _ _ _ Hin) as (x0 & Hx0 & Hd0 & _).
    rewrite list_lookup_insert_ne; [done|]. intros ->. congruence.
Qed.

Lemma rtc_quiet_leads s s' :
  rtc (change false) s s' → entries_filed s →
  leads s' = leads s ∧ entries_filed s'.
Proof.
  intros Hrtc. induction Hrtc as [|s s1 s2 Hc _ IH]; [done|]. intros Hfiled.
  destruct IH as [IHl IHf]; [by eapply change_entries_filed|].
  split; [|done]. rewrite IHl. by apply change_quiet_leads.
Qed.

Lemma handle_sync e s file :
  entries_filed s → in_sync file s →
  in_sync (match last_written (res_effects (handle cfg e s)) with
           | Some rows => Some rows
           | None => file
           end) (res_store (handle cfg e s)) ∧
  entries_filed (res_store (handle cfg e s)).
Proof.
  intros Hfiled Hsync.
  destruct (handle_change cfg e s) as (s1 & Hquiet & Hlast). simpl in Hlast.
  destruct (rtc_quiet_leads s s1 Hquiet Hfiled) as [Hleads Hfiled1].
  destruct Hlast as [[-> ->]|[Hfin ->]].
  - split; [|done]. destruct file; simpl in *; congruence.
  - split; [done|]. by eapply change_entries_filed.
Qed.

Lemma run_sync events s file :
  entries_filed s → in_sync file s →
  in_sync (match last_written (run_effects cfg events s) with
           | Some rows => Some rows
           | None => file
           end) (run cfg events s).
Proof.
  revert s file. induction events as [|e events IH]; intros s file Hfiled Hsync;
    [done|].
  rewrite run_cons. simpl run_effects. rewrite last_written_app.
  destruct (handle_sync e s file Hfiled Hsync) as [Hsync' Hfiled'].
  specialize (IH _ _ Hfiled' Hsync').
  by destruct (last_written (run_effects cfg events _)).
Qed.

(** X9. The leads file follows the store: after any sequence of events,
    the rows last written to the file are the rows of the completed
    structure of the store, as the submissions are then; when the file
    was never written, the completed structure has no row. *)
Theorem leads_file_in_sync (events : list Event) :
  match last_written (run_effects cfg events empty_store) with
  | Some rows => rows = leads (run cfg events empty_store)
  | None => leads (run cfg events empty_store) = []
  end.
Proof.
  pose proof (run_sync events empty_store None) as Hsync.
  destruct (last_written (run_effects cfg events empty_store));
    apply Hsync; try done; intros a b c r []%elem_of_nil.
Qed.
End file.

(** ** The quota *)

Section quota.
Context `{PyLib}.
Variable cfg : Config.








End quota.

(** ** The report *)

Section report_names.
Context `{PyLib}.
Variable cfg : Config.

Lemma names_are_keys s (by_name : by_name_t) :
  (∀ c r, (c, r) ∈ by_name → ∃ x, heap s !! r = Some x ∧ candidate x = c) →
  omap (λ r, candidate <$> heap s !! r) (od_values by_name) = by_name.*1.
Proof.
  unfold od_values. induction by_name as [|[c r] by_name IH]; intros Hall;
    [done|].
  destruct (Hall c r) as (x & Hx & Hc); [apply list_elem_of_here|].
  cbn [fmap list_fmap omap list_omap fst snd]. rewrite Hx. simpl.
  rewrite Hc. f_equal. apply IH. intros c' r' Hin. apply Hall.
  by apply list_elem_of_further.
Qed.

Lemma report_groups_keys s (by_position : by_position_t) :
  (∀ b by_name c r,
     (b, by_name) ∈ by_position → (c, r) ∈ by_name →
     ∃ x, heap s !! r = Some x ∧ candidate x = c) →
  report_groups s by_position = (λ '(p, by_name), (p, by_name.*1)) <$> by_position.
Proof.
  unfold report_groups.
  induction by_position as [|[b by_name] by_position IH]; intros Hall; [done|].
  cbn [fmap list_fmap]. f_equal.
  - f_equal. apply names_are_keys. intros c r Hin.
    apply (Hall b by_name); [apply list_elem_of_here|done].
  - apply IH. intros b' by_name' c r Hin. apply (Hall b' by_name').
    by apply list_elem_of_further.
Qed.

Lemma od_get_report_groups s p (by_position : by_position_t) :
  od_get p (report_groups s by_position)
  = (λ by_name, omap (λ r, candidate <$> heap s !! r) (od_values by_name))
      <$> od_get p by_position.
Proof.
  unfold report_groups.
  induction by_position as [|[b by_name] by_position IH]; [done|].
  cbn [fmap list_fmap od_get]. by destruct (decide (p = b)).
Qed.

(** X13. In every store reached by a sequence of events the report of a
    submitter lists, for each position of the submitter's entry and in
    the order of the structure, the candidate names the submissions are
    filed under; the number of names it lists for a position is the
    number the quota check of [pick_position] counts. *)
Theorem report_lists_filed_names (events : list Event)
    (command : ReportCommand) :
  let s := run cfg events empty_store in
  let by_position :=
    default [] (od_get (Some (rep_user_name command))
                       (done_submissions_by_user s)) in
  res_effects (partybot_report command s)
  = [Ack;
     PostMessage (rep_user_id command)
       (MsgReport ((λ '(p, by_name), (p, by_name.*1)) <$> by_position))] ∧
  ∀ position,
    length (default [] (od_get (Some position) (report_groups s by_position)))
    = completed_count s (rep_user_name command) position.
Proof.
  intros s by_position.
  destruct (reachable_kept cfg events) as (_ & _ & Hfiled). fold s in Hfiled.
  assert (∀ b by_name c r,
            (b, by_name) ∈ by_position → (c, r) ∈ by_name →
            ∃ x, heap s !! r = Some x ∧ candidate x = c) as Hall.
  { intros b by_name c r Hb Hc. subst by_position.
    destruct (od_get (Some (rep_user_name command)) (done_submissions_by_user s))
      as [bp|] eqn:Hget; simpl in Hb; [|by apply elem_of_nil in Hb].
    destruct (Hfiled (Some (rep_user_name command)) b c r)
      as (x & Hx & _ & _ & Hcand).
    { apply elem_of_entries. exists bp, by_name.
      split; [by apply od_get_elem|done]. }
    by exists x. }
  split.
  - rewrite report_eq. cbn [res_effects]. fold s. fold by_position.
    by rewrite report_groups_keys.
  - intros position. rewrite od_get_report_groups.
    unfold completed_count, lookup2. fold s. subst by_position.
    destruct (od_get (Some (rep_user_name command)) (done_submissions_by_user s))
      as [bp|] eqn:Hget; simpl; [|done].
    destruct (od_get (Some position) bp) as [by_name|] eqn:Hpos; simpl; [|done].
    rewrite names_are_keys; [by rewrite length_fmap|].
    intros c r Hin. apply (Hall (Some position) by_name); [|done].
    simpl. by apply od_get_elem.
Qed.
End report_names.

(** ** What is never removed *)

Section growth.
Context `{PyLib}.
Variable cfg : Config.

Lemma change_grows b (s0 s s' : Store) :
  change b s s' →
  (length (heap s0) ≤ length (heap s) ∧
   (∀ token, is_Some (submissions_by_token s0 !! token) →
             is_Some (submissions_by_token s !! token)) ∧
   (∀ user_id, is_Some (current_token_by_user_id s0 !! user_id) →
               is_Some (current_token_by_user_id s !! user_id)) ∧
   (∀ a b c, is_Some (lookup3 a b c (done_submissions_by_user s0)) →
             is_Some (lookup3 a b c (done_submissions_by_user s)))) →
  length (heap s0) ≤ length (heap s') ∧
  (∀ token, is_Some (submissions_by_token s0 !! token) →
            is_Some (submissions_by_token s' !! token)) ∧
  (∀ user_id, is_Some (current_token_by_user_id s0 !! user_id) →
              is_Some (current_token_by_user_id s' !! user_id)) ∧
  (∀ a b c, is_Some (lookup3 a b c (done_submissions_by_user s0)) →
            is_Some (lookup3 a b c (done_submissions_by_user s'))).
Proof.
  intros Hc (Hlen & Htok & Hcur & Hdone).
  destruct Hc as [s a|s a b0|s c|s x c token user_id _ _ _
                  |s r x x' _ _ _ _ _ _ _|s uid r x x' _ _ _ _]; simpl.
  - repeat split; [done..|]. intros a' b' c' Hin.
    rewrite lookup3_getitem_default. by apply Hdone.
  - repeat split; [done..|]. intros a' b' c' Hin.
    rewrite lookup3_getitem2. by apply Hdone.
  - done.
  - rewrite length_app. simpl. repeat split; [lia| | |done].
    + intros t Hin. destruct (decide (t = token)) as [->|Hne].
      * rewrite lookup_insert_eq. by eexists.
      * rewrite lookup_insert_ne by done. by apply Htok.
    + intros u Hin. destruct (decide (u = user_id)) as [->|Hne].
      * rewrite lookup_insert_eq. by eexists.
      * rewrite lookup_insert_ne by done. by apply Hcur.
  - rewrite length_insert. done.
  - rewrite length_insert. repeat split; [done..|]. intros a' b' c' Hin.
    rewrite lookup3_setitem3. case_decide; [by eexists|by apply Hdone].
Qed.

(** X8. No event removes anything but a name of the submitted set: after
    any sequence of events, from any store, the heap of submissions is
    at least as long, every token of the token map and every user's
    active token is still there, and every place of the completed
    structure (submitter, position, candidate name) that held a
    submission still holds one. *)
Theorem nothing_but_names_is_removed (events : list Event) (s : Store) :
  let s' := run cfg events s in
  length (heap s) ≤ length (heap s') ∧
  (∀ token, is_Some (submissions_by_token s !! token) →
            is_Some (submissions_by_token s' !! token)) ∧
  (∀ user_id, is_Some (current_token_by_user_id s !! user_id) →
              is_Some (current_token_by_user_id s' !! user_id)) ∧
  (∀ a b c, is_Some (lookup3 a b c (done_submissions_by_user s)) →
            is_Some (lookup3 a b c (done_submissions_by_user s'))).
Proof.
  simpl.
  apply (change_invariant cfg
    (λ s', length (heap s) ≤ length (heap s') ∧
      (∀ token, is_Some (submissions_by_token s !! token) →
                is_Some (submissions_by_token s' !! token)) ∧
      (∀ user_id, is_Some (current_token_by_user_id s !! user_id) →
                  is_Some (current_token_by_user_id s' !! user_id)) ∧
      (∀ a b c, is_Some (lookup3 a b c (done_submissions_by_user s)) →
                is_Some (lookup3 a b c (done_submissions_by_user s'))))).
  - intros b s1 s2. apply change_grows.
  - done.
Qed.
End growth.

(** ** The logger *)

Section logger.
Import Log.
Implicit Types (level logging_level : LoggingLevel) (filename message : str).

Lemma digits_no_newline d : NEWLINE ∉ digits d.
Proof.
  induction d; simpl; [apply not_elem_of_nil|..];
    (rewrite not_elem_of_cons; split; [done|assumption]).
Qed.

Lemma str_of_int_no_newline n : NEWLINE ∉ str_of_int n.
Proof.
  unfold str_of_int. destruct (Z.to_int n) as [d|d].
  - apply digits_no_newline.
  - rewrite not_elem_of_cons. split; [done|apply digits_no_newline].
Qed.

Lemma elem_of_split sep (s p : str) c : p ∈ split sep s → c ∈ p → c ∈ s.
Proof.
  revert p. induction s as [|c0 s IH]; simpl; intros p.
  - intros ->%list_elem_of_singleton. done.
  - destruct (N.eqb_spec c0 sep) as [->|Hne].
    + intros [->|Hin]%elem_of_cons Hc; [by apply elem_of_nil in Hc|].
      apply list_elem_of_further. by apply (IH p).
    + pose proof (split_not_nil sep s) as Hnil.
      destruct (split sep s) as [|h t]; [done|].
      intros [->|Hin]%elem_of_cons Hc.
      * apply elem_of_cons in Hc as [->|Hc]; [apply list_elem_of_here|].
        apply list_elem_of_further, (IH h); [apply list_elem_of_here|done].
      * apply list_elem_of_further, (IH p); [|done].
        by apply list_elem_of_further.
Qed.

Lemma last_elem_of {A} (l : list A) d : l ≠ [] → List.last l d ∈ l.
Proof.
  induction l as [|a l IH]; [done|]. intros _.
  destruct l as [|b l]; [apply list_elem_of_here|].
  apply list_elem_of_further. by apply IH.
Qed.

Lemma basename_no_newline filename :
  NEWLINE ∉ filename → NEWLINE ∉ basename filename.
Proof.
  intros Hout Hin. apply Hout.
  apply (elem_of_split SLASH filename (basename filename)); [|done].
  apply last_elem_of, split_not_nil.
Qed.

Lemma format_message_prefix message level :
  format_message message level = format_message [] level ++ message.
Proof.
  unfold format_message. rewrite !app_nil_r. by rewrite <- !app_assoc.
Qed.

Lemma prefix_length level : length (format_message [] level) = 40.
Proof. by destruct level. Qed.

Lemma prefix_no_newline level : NEWLINE ∉ format_message [] level.
Proof.
  intros Hin. apply list_elem_of_In in Hin.
  destruct level; vm_compute in Hin; intuition discriminate.
Qed.

Lemma add_to_last_not_nil (l : list str) suffix :
  l ≠ [] → add_to_last l suffix ≠ [].
Proof. destruct l as [|a [|b l]]; done. Qed.

Lemma add_to_last_length (l : list str) suffix :
  length (add_to_last l suffix) = length l.
Proof.
  induction l as [|a l IH]; [done|]. destruct l as [|b l]; [done|].
  change (add_to_last (a :: b :: l) suffix) with (a :: add_to_last (b :: l) suffix).
  simpl in *. by rewrite IH.
Qed.

Lemma add_to_last_Forall (P : str → Prop) (l : list str) suffix :
  (∀ line, P line → P (line ++ suffix)) →
  Forall P l → Forall P (add_to_last l suffix).
Proof.
  intros Hsuffix. induction l as [|a l IH]; [done|].
  intros [Ha Hl]%Forall_cons. destruct l as [|b l].
  - apply Forall_singleton. by apply Hsuffix.
  - change (add_to_last (a :: b :: l) suffix)
      with (a :: add_to_last (b :: l) suffix).
    apply Forall_cons. split; [done|by apply IH].
Qed.

Lemma log_printed logging_level filename line_number args level :
  lt level logging_level = false →
  log logging_level filename line_number args level
  = Some (Print (if gt level WARNING then stderr else stdout)
            (join NEWLINE
               (add_to_last
                  ((λ arg, format_message arg level)
                     <$> split NEWLINE (join SPACE args))
                  (Ascii.py " "
                     ++ bold_text (Ascii.py "(" ++ basename filename
                                     ++ Ascii.py ":" ++ str_of_int line_number
                                     ++ Ascii.py ")"))))).
Proof. intros Hlt. unfold log. rewrite Hlt. by destruct (gt level WARNING). Qed.

(** X14. A message is printed exactly when its level is not below the
    logging level, and it goes to the error stream exactly when its
    level is above WARNING, that is for ERROR and CRITICAL. With the
    level [app.py] sets, INFO, only the debug messages are dropped; in
    debug mode nothing is dropped. *)
Theorem log_threshold_and_stream logging_level filename line_number args level :
  let out := log logging_level filename line_number args level in
  (out = None ↔ (ordinal level < ordinal logging_level)%Z) ∧
  (∀ file text, out = Some (Print file text) →
     (file = stderr ↔ level = ERROR ∨ level = CRITICAL)) ∧
  (logging_level = INFO → (out = None ↔ level = DEBUG)) ∧
  (is_debug_mode logging_level = true → out ≠ None).
Proof.
  simpl. unfold log, is_debug_mode.
  destruct logging_level, level; vm_compute;
    (repeat split; try done; try lia; try (intros; simplify_eq; done);
     try (intros; simplify_eq; tauto); try (intros [|]; done)).
Qed.

(** X15. The text [log] prints for a file name without a newline
    splits, at the newlines, into one line for each line of the
    message (the arguments joined by spaces): each is the formatted line
    of the message, and the last also carries the location of the
    call. *)
Theorem log_prints_line_by_line logging_level filename line_number args level :
  NEWLINE ∉ filename →
  lt level logging_level = false →
  ∃ file text,
    log logging_level filename line_number args level = Some (Print file text) ∧
    let lines := split NEWLINE (join SPACE args) in
    split NEWLINE text
    = add_to_last ((λ arg, format_message arg level) <$> lines)
        (Ascii.py " "
           ++ bold_text (Ascii.py "(" ++ basename filename ++ Ascii.py ":"
                           ++ str_of_int line_number ++ Ascii.py ")")) ∧
    length (split NEWLINE text) = length lines.
Proof.
  intros Hfile Hlt. rewrite log_printed by done. eexists _, _.
  split; [reflexivity|]. cbv zeta.
  assert (split NEWLINE
            (join NEWLINE
               (add_to_last
                  ((λ arg, format_message arg level)
                     <$> split NEWLINE (join SPACE args))
                  (Ascii.py " "
                     ++ bold_text (Ascii.py "(" ++ basename filename
                                     ++ Ascii.py ":" ++ str_of_int line_number
                                     ++ Ascii.py ")"))))
          = add_to_last
              ((λ arg, format_message arg level)
                 <$> split NEWLINE (join SPACE args))
              (Ascii.py " "
                 ++ bold_text (Ascii.py "(" ++ basename filename
                                 ++ Ascii.py ":" ++ str_of_int line_number
                                 ++ Ascii.py ")"))) as Hsplit.
  { apply split_join.
    - apply add_to_last_not_nil. intros Hnil%fmap_nil_inv.
      by apply split_not_nil in Hnil.
    - apply add_to_last_Forall.
      + intros line Hline. rewrite !not_elem_of_app. split; [done|].
        unfold bold_text. rewrite !not_elem_of_app.
        pose proof (basename_no_newline filename Hfile).
        pose proof (str_of_int_no_newline line_number).
        repeat split; try done;
          (intros Hin; apply list_elem_of_In in Hin; vm_compute in Hin;
           intuition discriminate).
      + apply Forall_fmap. eapply Forall_impl; [apply split_fields_no_sep|].
        intros line Hline. simpl. rewrite format_message_prefix.
        rewrite not_elem_of_app. split; [apply prefix_no_newline|done]. }
  split; [exact Hsplit|].
  by rewrite Hsplit, add_to_last_length, length_fmap.
Qed.

(** X16. Every formatted line starts with a prefix of 40 characters
    that depends on the level only, so the message starts at the same
    place whatever the level; in the first 20 characters the name of
    the level, with its colour codes, is padded with spaces. *)
Theorem message_starts_at_fixed_column message level :
  format_message message level = format_message [] level ++ message ∧
  length (format_message [] level) = 40 ∧
  drop 40 (format_message message level) = message ∧
  take 20 (format_message message level)
  = color_text (name level) (COLORS level)
      ++ replicate (9 - length (name level)) SPACE.
Proof.
  split; [apply format_message_prefix|]. split; [apply prefix_length|].
  rewrite format_message_prefix. split.
  - rewrite drop_app_length'; [done|by rewrite prefix_length].
  - rewrite take_app_le by (rewrite prefix_length; lia).
    by destruct level.
Qed.
End logger.

(** ** The further properties at concrete inputs *)

Module MoreChecks.
Import Ascii Examples.
#[local] Existing Instance lib.

Lemma command_parsing_witness :
  cmd_text (nominate "t1" "Jane Doe")
    = py "https://linkedin.com/x" ++ SPACE :: Jane ∧
  (SPACE ∉ py "https://linkedin.com/x") ∧
  candidate_name_of (nominate "t1" "Jane Doe") = Jane ∧
  (SPACE ∉ cmd_text nameless) ∧
  url_parses nameless ∧
  Respond MsgEmptyName ∈ res_effects (partybot_submit cfg0 nameless empty_store).
Proof.
  assert (SPACE ∉ py "https://linkedin.com/x") as Hout.
  { intros Hin. apply list_elem_of_In in Hin. vm_compute in Hin.
    intuition discriminate. }
  assert (url_parses nameless) as Hurl by (by eexists).
  destruct (command_parsing cfg0 (nominate "t1" "Jane Doe") empty_store
              (py "https://linkedin.com/x") Jane) as [Hname _].
  destruct (command_parsing cfg0 nameless empty_store [] []) as [_ Hempty].
  destruct (Hempty Hout) as [_ Hrespond].
  destruct Hrespond as [Hrespond _]; [vm_compute; lia|exact Hurl|].
  destruct (Hname eq_refl Hout) as [Hn _].
  split; [reflexivity|]. split; [exact Hout|]. split; [exact Hn|].
  split; [exact Hout|]. split; [exact Hurl|exact Hrespond].
Defined.

Lemma url_is_cleaned_witness :
  (LT ∉ py "https://l.in/x") ∧ (GT ∉ py "https://l.in/x") ∧
  (PIPE ∉ py "https://l.in/x") ∧ (SPACE ∉ py "https://l.in/x") ∧
  (SPACE ∉ py "l.in/x") ∧
  candidate_url_of
    (mkSubmitCommand (py "<https://l.in/x|l.in/x> Jane Doe") alice U1
                     (py "t1") (py "100.1"))
  = py "https://l.in/x" ∧
  candidate_name_of
    (mkSubmitCommand (py "<https://l.in/x|l.in/x> Jane Doe") alice U1
                     (py "t1") (py "100.1"))
  = Jane.
Proof.
  assert (∀ c (s : str), existsb (N.eqb c) s = false → c ∉ s) as Hno.
  { intros c s Hex Hin. apply list_elem_of_In in Hin.
    assert (existsb (N.eqb c) s = true) as Ht
      by (apply existsb_exists; exists c; split; [done|apply N.eqb_refl]).
    congruence. }
  assert (LT ∉ py "https://l.in/x") as H1 by (by apply Hno).
  assert (GT ∉ py "https://l.in/x") as H2 by (by apply Hno).
  assert (PIPE ∉ py "https://l.in/x") as H3 by (by apply Hno).
  assert (SPACE ∉ py "https://l.in/x") as H4 by (by apply Hno).
  assert (SPACE ∉ py "l.in/x") as H5 by (by apply Hno).
  destruct (url_is_cleaned
              (mkSubmitCommand (py "<https://l.in/x|l.in/x> Jane Doe") alice U1
                               (py "t1") (py "100.1"))
              (py "https://l.in/x") (py "l.in/x") Jane) as [_ Hclean].
  destruct (Hclean H1 H2 H3 H4 H5) as [Hlabelled _].
  destruct (Hlabelled eq_refl) as [Hu Hn].
  split; [exact H1|]. split; [exact H2|]. split; [exact H3|].
  split; [exact H4|]. split; [exact H5|]. split; [exact Hu|exact Hn].
Defined.

Lemma interactive_values_round_trip_witness :
  (COLON ∉ cmd_uuid (nominate "t1" "Jane Doe")) ∧
  accepted (partybot_submit cfg0 (nominate "t1" "Jane Doe") empty_store) ∧
  token_of (option_value (py "t1") (py "cancel")) = py "t1" ∧
  (∃ x, heap (res_store (pick_position (pick "t1" "Engineer") pending_store))
          !! 0 = Some x ∧
        candidate x = Some Jane ∧ position x = Some Engineer ∧
        done x = true) ∧
  res_raised (cancel_submission (cancel "t1") pending_store) = None.
Proof.
  assert (COLON ∉ cmd_uuid (nominate "t1" "Jane Doe")) as Hcolon.
  { intros Hin. apply list_elem_of_In in Hin. vm_compute in Hin.
    intuition discriminate. }
  assert (accepted (partybot_submit cfg0 (nominate "t1" "Jane Doe") empty_store))
    as Hacc by (vm_compute; reflexivity).
  destruct (interactive_values_round_trip cfg0 (nominate "t1" "Jane Doe")
              (pick "t1" "Engineer") (cancel "t1") (py "cancel") empty_store
              Hcolon Hacc) as (Htok & Hpick & Hcancel).
  split; [exact Hcolon|]. split; [exact Hacc|]. split; [exact Htok|]. split.
  - apply Hpick; [reflexivity|vm_compute; lia].
  - apply Hcancel. reflexivity.
Defined.

Lemma canonical_name_ignores_non_letters_witness :
  isalpha SPACE = false ∧
  canonicalize_name (py "Jane" ++ SPACE :: py "Doe")
    = canonicalize_name (py "Jane" ++ py "Doe") ∧
  accepted (partybot_submit cfg0 (nominate "t1" "123") empty_store) ∧
  Respond (MsgDuplicate (py "4 5"))
    ∈ res_effects
        (partybot_submit cfg0 (nominate "t2" "4 5")
           (res_store (partybot_submit cfg0 (nominate "t1" "123") empty_store))).
Proof.
  assert (accepted (partybot_submit cfg0 (nominate "t1" "123") empty_store))
    as Hacc by (vm_compute; reflexivity).
  destruct (canonical_name_ignores_non_letters cfg0 (py "Jane") (py "Doe") SPACE
              (nominate "t1" "123") (nominate "t2" "4 5") empty_store)
    as [Hdrop Hdup].
  destruct Hdup as [Hrespond _];
    [repeat apply Forall_cons_2; (reflexivity || apply Forall_nil_2)
    |repeat apply Forall_cons_2; (reflexivity || apply Forall_nil_2)
    |exact Hacc|vm_compute; lia|by eexists|discriminate|].
  split; [reflexivity|]. split; [exact (Hdrop eq_refl)|].
  split; [exact Hacc|exact Hrespond].
Defined.

Lemma identity_fields_are_kept_witness :
  heap pending_store !! 0 = Some jane_pending ∧
  ∃ x', heap (run cfg0 [EMessage (say "hello"); EPick (pick "t1" "Engineer")]
                  pending_store) !! 0 = Some x' ∧
        referer x' = Some alice ∧ candidate x' = Some Jane ∧
        url x' = Some (py "https://linkedin.com/x").
Proof.
  assert (heap pending_store !! 0 = Some jane_pending) as Hx by reflexivity.
  destruct (identity_fields_are_kept cfg0
              [EMessage (say "hello"); EPick (pick "t1" "Engineer")]
              pending_store 0 jane_pending Hx)
    as (x' & Hx' & Hr & Hc & Hu & _).
  split; [exact Hx|]. exists x'. split; [exact Hx'|].
  split; [exact Hr|]. split; [exact Hc|exact Hu].
Defined.


Lemma log_prints_line_by_line_witness :
  (Log.NEWLINE ∉ py "/srv/partybot/app.py") ∧
  Log.lt Log.WARNING Log.INFO = false ∧
  ∃ file text,
    Log.log Log.INFO (py "/srv/partybot/app.py") 129
            [py "malformed url:" ++ Log.NEWLINE :: py "x"; py "by alice"]
            Log.WARNING
    = Some (Log.Print file text) ∧
    length (split Log.NEWLINE text) = 2.
Proof.
  assert (Log.NEWLINE ∉ py "/srv/partybot/app.py") as Hfile.
  { intros Hin. apply list_elem_of_In in Hin. vm_compute in Hin.
    intuition discriminate. }
  destruct (log_prints_line_by_line Log.INFO (py "/srv/partybot/app.py") 129
              [py "malformed url:" ++ Log.NEWLINE :: py "x"; py "by alice"]
              Log.WARNING Hfile eq_refl)
    as (file & text & Hlog & _ & Hlen).
  split; [exact Hfile|]. split; [reflexivity|].
  exists file, text. split; [exact Hlog|exact Hlen].
Defined.
End MoreChecks.
